(** * A shallow embedding of the quiz server (server.js)

    The server keeps one registry of players ([activePlayers]), one
    countdown interval per player, and a queue of delayed calls of
    [moveToNextQuestion].  Every handler of the source is embedded as a
    function on an explicit server state; the JavaScript values that reach
    the handlers from clients are embedded as [JsVal].  Player objects are
    shared between the registry and the closures of their intervals, so
    they live in a heap and are named by references.  The clock and the
    random generator are inputs of the handlers that read them.  Console
    output, the static files and the port are left out. *)

From Stdlib Require Import ZArith Ascii String.
From stdpp Require Import base tactics option list strings sorting.

Local Open Scope Z_scope.

(** ** JavaScript values sent by clients *)

(** Numbers are integers.  The embedding of a number and of what
    [parseInt] reads is that of JavaScript on the safe integers, those of
    magnitude below 2^53: a JavaScript number holds them exactly and
    [Number.prototype.toString] prints them as plain decimal digits.
    Beyond them JavaScript rounds a digit string to the nearest double
    and prints a number from 1e21 on in exponent form (so that
    [parseInt(1e21, 10)] is 1), which this embedding does not follow: a
    statement about the value read from a client's answer carries
    [safeInteger]. *)
Inductive JsVal : Type :=
  | JUndefined
  | JNull
  | JBool (b : bool)
  | JNum (z : Z)
  | JStr (s : string).

#[global] Instance JsVal_eq_dec : EqDecision JsVal.
Proof. solve_decision. Defined.

(** [a === b] *)
Definition strict_eq (a b : JsVal) : bool := bool_decide (a = b).

(** A plain object, as an ordered list of own properties. *)
Definition JsObject : Type := list (string * JsVal).

Fixpoint getProp (k : string) (o : JsObject) : option JsVal :=
  match o with
  | [] => None
  | (k', v) :: o' => if bool_decide (k = k') then Some v else getProp k o'
  end.

(** ** Numbers and strings *)

Definition ascii_of_digit (d : Z) : ascii := ascii_of_N (Z.to_N (48 + d)).

Definition digit_of_ascii (c : ascii) : option Z :=
  let n := Z.of_N (N_of_ascii c) in
  if (48 <=? n) && (n <=? 57) then Some (n - 48) else None.

Fixpoint digits_fuel (fuel : nat) (n : Z) (acc : string) : string :=
  match fuel with
  | O => acc
  | S f =>
      let acc' := String (ascii_of_digit (n mod 10)) acc in
      if n / 10 =? 0 then acc' else digits_fuel f (n / 10) acc'
  end.

(** Decimal digits of a natural number. *)
Definition decimal (n : Z) : string :=
  digits_fuel (S (Z.to_nat (Z.log2 n))) n "".

(** [n.toString()] for an integer-valued number; [-0] prints as ["0"]. *)
Definition toString (n : Z) : string :=
  if n <? 0 then String "-" (decimal (- n)) else decimal n.

(** [ToString(v)], the conversion [parseInt] applies to its argument. *)
Definition ToString (v : JsVal) : string :=
  match v with
  | JUndefined => "undefined"
  | JNull => "null"
  | JBool true => "true"
  | JBool false => "false"
  | JNum z => toString z
  | JStr s => s
  end.

(** Strings are over the code points below 256.  The members of
    StrWhiteSpaceChar among them: TAB, LF, VT, FF, CR, SP and NBSP. *)
Definition is_whitespace (c : ascii) : bool :=
  let n := N_of_ascii c in
  ((9 <=? n) && (n <=? 13))%N || (n =? 32)%N || (n =? 160)%N.

Fixpoint skip_whitespace (s : string) : string :=
  match s with
  | String c s' => if is_whitespace c then skip_whitespace s' else s
  | EmptyString => s
  end.

(** The longest prefix of decimal digits, as a number; [acc] is [None]
    until a digit has been read. *)
Fixpoint parse_digits (s : string) (acc : option Z) : option Z :=
  match s with
  | String c s' =>
      match digit_of_ascii c with
      | Some d => parse_digits s' (Some (10 * default 0 acc + d))
      | None => acc
      end
  | EmptyString => acc
  end.

(** [parseInt(v, 10)]; [None] is [NaN].  Exact when the value read is a
    safe integer. *)
Definition parseInt (v : JsVal) : option Z :=
  match skip_whitespace (ToString v) with
  | String "-" s' => Z.opp <$> parse_digits s' None
  | String "+" s' => parse_digits s' None
  | s => parse_digits s None
  end.

(** [Number.isSafeInteger(n)] *)
Definition safeInteger (n : Z) : Prop := - 2 ^ 53 < n < 2 ^ 53.

(** [s.padStart(n, c)] for a one-character filler. *)
Definition padStart (n : nat) (c : ascii) (s : string) : string :=
  String.concat "" (replicate (n - String.length s)%nat (String c "")) +:+ s.

(** [s.slice(0, n)] *)
Definition slice0 (n : nat) (s : string) : string := substring 0 n s.

(** ** formatTime *)

Definition formatTime (ms : Z) : string :=
  let totalSeconds := ms / 1000 in
  let minutes := totalSeconds / 60 in
  let seconds := Z.rem totalSeconds 60 in
  let milliseconds := Z.rem ms 1000 in
  padStart 2 "0" (toString minutes) +:+ ":" +:+
  padStart 2 "0" (toString seconds) +:+ "." +:+
  padStart 2 "0" (slice0 2 (toString milliseconds)).

(** The format as the specification words it: minutes, seconds, and the
    two most significant of the three sub-second digits. *)
Definition formatTime_spec (ms : Z) : string :=
  padStart 2 "0" (toString (ms / 60000)) +:+ ":" +:+
  padStart 2 "0" (toString ((ms / 1000) mod 60)) +:+ "." +:+
  padStart 2 "0" (toString ((ms mod 1000) / 10)).

(** ** Array.prototype.sort

    The sort of the language is stable; with a consistent comparator its
    result is the stable sorted arrangement of the array, whatever the
    algorithm of the engine.  It is embedded as the stable insertion sort
    for the comparator [cmp], whose sign orders two elements as in
    JavaScript: [x] goes before the first [y] with [cmp x y <= 0]. *)

Fixpoint insert_by {A : Type} (cmp : A -> A -> Z) (x : A) (l : list A) : list A :=
  match l with
  | [] => [x]
  | y :: l' => if cmp x y <=? 0 then x :: l else y :: insert_by cmp x l'
  end.

Fixpoint sort_by {A : Type} (cmp : A -> A -> Z) (l : list A) : list A :=
  match l with
  | [] => []
  | x :: l' => insert_by cmp x (sort_by cmp l')
  end.

(** ** Game data *)

(** Socket ids are strings; references to player objects and interval
    handles are counted from 0. *)
Abbreviation SocketId := string (only parsing).
Abbreviation Ref := nat (only parsing).
Abbreviation Handle := nat (only parsing).

Definition MAX_QUESTIONS : Z := 10.
Definition TIME_PER_QUESTION_SECONDS : Z := 60.

(** ['in-progress'] and ['finished'] *)
Inductive Status : Type := InProgress | Finished.

#[global] Instance Status_eq_dec : EqDecision Status.
Proof. solve_decision. Defined.

Module Question.

Record t : Type := mk { id : Z; text : string; answer : Z; points : Z }.

(** The own properties of a question object, in creation order. *)
Definition toObject (q : t) : JsObject :=
  [("id", JNum (id q)); ("text", JStr (text q));
   ("answer", JNum (answer q)); ("points", JNum (points q))].

End Question.

Module Player.

Record t : Type := mk {
  id : SocketId;
  name : JsVal;
  score : Z;
  questionIndex : Z;
  questionSet : list Question.t;
  gameStartTime : Z;
  totalTimeMs : Z;
  timer : option Handle;
  status : Status;
  currentQuestionStartTime : option Z
}.

Definition set_score (v : Z) (p : t) : t :=
  mk (id p) (name p) v (questionIndex p) (questionSet p) (gameStartTime p)
     (totalTimeMs p) (timer p) (status p) (currentQuestionStartTime p).

Definition set_questionIndex (v : Z) (p : t) : t :=
  mk (id p) (name p) (score p) v (questionSet p) (gameStartTime p)
     (totalTimeMs p) (timer p) (status p) (currentQuestionStartTime p).

Definition set_totalTimeMs (v : Z) (p : t) : t :=
  mk (id p) (name p) (score p) (questionIndex p) (questionSet p) (gameStartTime p)
     v (timer p) (status p) (currentQuestionStartTime p).

Definition set_timer (v : option Handle) (p : t) : t :=
  mk (id p) (name p) (score p) (questionIndex p) (questionSet p) (gameStartTime p)
     (totalTimeMs p) v (status p) (currentQuestionStartTime p).

Definition set_status (v : Status) (p : t) : t :=
  mk (id p) (name p) (score p) (questionIndex p) (questionSet p) (gameStartTime p)
     (totalTimeMs p) (timer p) v (currentQuestionStartTime p).

Definition set_currentQuestionStartTime (v : option Z) (p : t) : t :=
  mk (id p) (name p) (score p) (questionIndex p) (questionSet p) (gameStartTime p)
     (totalTimeMs p) (timer p) (status p) v.

Definition finished (p : t) : bool := bool_decide (status p = Finished).

End Player.

(** [a[i]] for a number [i]: [undefined] outside the array. *)
Definition index {A : Type} (l : list A) (i : Z) : option A :=
  if i <? 0 then None else l !! Z.to_nat i.

(** [player.questionSet[player.questionIndex]] *)
Definition currentQuestion (p : Player.t) : option Question.t :=
  index (Player.questionSet p) (Player.questionIndex p).

(** ** Events sent to clients *)

Module Feedback.

Record t : Type := mk {
  isCorrect : bool;
  reason : option string;
  correctAnswer : option Z
}.

End Feedback.

Module Entry.

(** A row of [updateLeaderboard]; [totalTimeMs = None] is [Infinity]. *)
Record t : Type := mk {
  id : SocketId;
  name : JsVal;
  score : Z;
  status : string;
  totalTimeMs : option Z
}.

End Entry.

Module Winner.

Record t : Type := mk { name : JsVal; score : Z; time : string }.

End Winner.

Inductive Msg : Type :=
  | NewQuestion (payload : JsObject)
  | UpdateTimer (timeLeft : Z)
  | AnswerFeedback (fb : Feedback.t)
  | GameOver (score : Z) (totalTime : string)
  | UpdateLeaderboard (rows : list Entry.t)
  | PlayerCount (n : nat)
  | WinnerNotification (ws : list Winner.t).

(** [socket.emit] and [io.to(id).emit] reach one client, [io.emit] all. *)
Inductive Target : Type :=
  | Unicast (sid : SocketId)
  | Broadcast.

(** ** Server state *)

Module Interval.

(** A running [setInterval] of [startQuestionTimer]: its closure holds the
    player object, the socket and the local [timeLeft]. *)
Record t : Type := mk {
  handle : Handle;
  player : Ref;
  socket : SocketId;
  timeLeft : Z
}.

End Interval.

Module Server.

(** Player objects live in [heap]; [activePlayers] maps socket ids to them
    in insertion order, as [Object.values] enumerates them.  [timeouts]
    are the pending [setTimeout] calls, each of which runs
    [moveToNextQuestion] on the recorded id after the recorded delay. *)
Record t : Type := mk {
  heap : list Player.t;
  activePlayers : list (SocketId * Ref);
  sockets : list SocketId;
  intervals : list Interval.t;
  nextHandle : Handle;
  timeouts : list (Z * SocketId);
  emitted : list (Target * Msg);
  crashed : bool
}.

Definition set_heap (v : list Player.t) (s : t) : t :=
  mk v (activePlayers s) (sockets s) (intervals s) (nextHandle s)
     (timeouts s) (emitted s) (crashed s).

Definition set_activePlayers (v : list (SocketId * Ref)) (s : t) : t :=
  mk (heap s) v (sockets s) (intervals s) (nextHandle s)
     (timeouts s) (emitted s) (crashed s).

Definition set_sockets (v : list SocketId) (s : t) : t :=
  mk (heap s) (activePlayers s) v (intervals s) (nextHandle s)
     (timeouts s) (emitted s) (crashed s).

Definition set_intervals (v : list Interval.t) (s : t) : t :=
  mk (heap s) (activePlayers s) (sockets s) v (nextHandle s)
     (timeouts s) (emitted s) (crashed s).

Definition set_nextHandle (v : Handle) (s : t) : t :=
  mk (heap s) (activePlayers s) (sockets s) (intervals s) v
     (timeouts s) (emitted s) (crashed s).

Definition set_timeouts (v : list (Z * SocketId)) (s : t) : t :=
  mk (heap s) (activePlayers s) (sockets s) (intervals s) (nextHandle s)
     v (emitted s) (crashed s).

Definition set_emitted (v : list (Target * Msg)) (s : t) : t :=
  mk (heap s) (activePlayers s) (sockets s) (intervals s) (nextHandle s)
     (timeouts s) v (crashed s).

Definition set_crashed (v : bool) (s : t) : t :=
  mk (heap s) (activePlayers s) (sockets s) (intervals s) (nextHandle s)
     (timeouts s) (emitted s) v.

Definition init : t := mk [] [] [] [] O [] [] false.

End Server.

(** ** Registry and heap access *)

(** [activePlayers[sid]] *)
Fixpoint registry_lookup (sid : SocketId) (reg : list (SocketId * Ref)) : option Ref :=
  match reg with
  | [] => None
  | (k, r) :: reg' => if bool_decide (k = sid) then Some r else registry_lookup sid reg'
  end.

(** [activePlayers[sid] = r]: an existing key keeps its place, a new key
    goes last. *)
Fixpoint registry_set (sid : SocketId) (r : Ref) (reg : list (SocketId * Ref)) : list (SocketId * Ref) :=
  match reg with
  | [] => [(sid, r)]
  | (k, r') :: reg' =>
      if bool_decide (k = sid) then (k, r) :: reg' else (k, r') :: registry_set sid r reg'
  end.

(** [delete activePlayers[sid]] *)
Definition registry_delete (sid : SocketId) (reg : list (SocketId * Ref)) : list (SocketId * Ref) :=
  filter (fun kv => kv.1 <> sid) reg.

Definition getPlayer (st : Server.t) (sid : SocketId) : option (Ref * Player.t) :=
  match registry_lookup sid (Server.activePlayers st) with
  | Some r => match Server.heap st !! r with Some p => Some (r, p) | None => None end
  | None => None
  end.

(** [Object.values(activePlayers)] *)
Definition players (st : Server.t) : list Player.t :=
  omap (fun kv => Server.heap st !! kv.2) (Server.activePlayers st).

Definition setPlayer (r : Ref) (p : Player.t) (st : Server.t) : Server.t :=
  Server.set_heap (<[r := p]> (Server.heap st)) st.

Definition emit (to : Target) (m : Msg) (st : Server.t) : Server.t :=
  Server.set_emitted (Server.emitted st ++ [(to, m)]) st.

(** [setTimeout(() => moveToNextQuestion(sid), delay)] *)
Definition setTimeout (delay : Z) (sid : SocketId) (st : Server.t) : Server.t :=
  Server.set_timeouts (Server.timeouts st ++ [(delay, sid)]) st.

Definition clearInterval (h : Handle) (st : Server.t) : Server.t :=
  Server.set_intervals (filter (fun iv => Interval.handle iv <> h) (Server.intervals st)) st.

(** [if (player.timer) clearInterval(player.timer)] *)
Definition clearTimerOf (p : Player.t) (st : Server.t) : Server.t :=
  match Player.timer p with
  | Some h => clearInterval h st
  | None => st
  end.

(** ** generateQuestionSet *)

(** The three values [Math.floor(Math.random() * k)] of one iteration,
    for k = 5, 10, 10. *)
Record Draw : Type := mkDraw { drawA : Z; drawB : Z; drawX : Z }.

Definition makeQuestion (now : Z) (i : nat) (d : Draw) : Question.t :=
  let uniqueId := now + Z.of_nat i in
  let A := drawA d + 1 in
  let B := drawB d + 1 in
  let X := drawX d + 1 in
  let C := A * X + B in
  let text :=
    if A =? 1 then "X + " +:+ toString B +:+ " = " +:+ toString C
    else toString A +:+ "X + " +:+ toString B +:+ " = " +:+ toString C in
  Question.mk uniqueId text X 10.

(** [clock i] is the reading of [Date.now()] in iteration [i]. *)
Definition generateQuestionSet (clock : nat -> Z) (draws : nat -> Draw) : list Question.t :=
  map (fun i => makeQuestion (clock i) i (draws i)) (seq 0 (Z.to_nat MAX_QUESTIONS)).

(** ** Leaderboard and winners *)

Definition leaderboardCompare (a b : Player.t) : Z :=
  if Player.finished a && negb (Player.finished b) then -1
  else if negb (Player.finished a) && Player.finished b then 1
  else if Player.finished a && Player.finished b then
    if negb (Player.score b =? Player.score a)
    then Player.score b - Player.score a
    else Player.totalTimeMs a - Player.totalTimeMs b
  else Player.score b - Player.score a.

Definition leaderboardEntry (p : Player.t) : Entry.t :=
  Entry.mk (Player.id p) (Player.name p) (Player.score p)
    (if Player.finished p
     then "Finished (" +:+ formatTime (Player.totalTimeMs p) +:+ ")"
     else "Q" +:+ toString (Player.questionIndex p + 1) +:+ "/" +:+ toString MAX_QUESTIONS)
    (if Player.finished p then Some (Player.totalTimeMs p) else None).

(** The players in leaderboard order, before projection. *)
Definition rank (ps : list Player.t) : list Player.t :=
  sort_by leaderboardCompare ps.

Definition broadcastLeaderboard (st : Server.t) : Server.t :=
  let sortedPlayers := map leaderboardEntry (rank (players st)) in
  emit Broadcast (PlayerCount (length sortedPlayers))
    (emit Broadcast (UpdateLeaderboard sortedPlayers) st).

Definition winnersCompare (a b : Player.t) : Z :=
  if negb (Player.score b =? Player.score a)
  then Player.score b - Player.score a
  else Player.totalTimeMs a - Player.totalTimeMs b.

(** [.filter(...).sort(...).slice(0, 3)] *)
Definition topFinished (ps : list Player.t) : list Player.t :=
  take 3 (sort_by winnersCompare (filter (fun p => Player.status p = Finished) ps)).

Definition winnerOf (p : Player.t) : Winner.t :=
  Winner.mk (Player.name p) (Player.score p) (formatTime (Player.totalTimeMs p)).

Definition winners (ps : list Player.t) : list Winner.t :=
  map winnerOf (topFinished ps).

Definition checkAndNotifyWinners (st : Server.t) : Server.t :=
  let finishedPlayers := winners (players st) in
  if (0 <? length finishedPlayers)%nat
  then emit Broadcast (WinnerNotification finishedPlayers) st
  else st.

(** ** Timers and question progression *)

Definition startQuestionTimer (playerId : SocketId) (now : Z) (st : Server.t) : Server.t :=
  match getPlayer st playerId with
  | None => st
  | Some (r, player) =>
      if Player.finished player then st
      else
        let st := clearTimerOf player st in
        if negb (bool_decide (playerId ∈ Server.sockets st)) then st
        else
          let player := Player.set_currentQuestionStartTime (Some now) player in
          let st := emit (Unicast playerId) (UpdateTimer TIME_PER_QUESTION_SECONDS) st in
          let h := Server.nextHandle st in
          let st := Server.set_nextHandle (S h) st in
          let st :=
            Server.set_intervals
              (Server.intervals st ++ [Interval.mk h r playerId TIME_PER_QUESTION_SECONDS]) st in
          setPlayer r (Player.set_timer (Some h) player) st
  end.

(** [{ ...question, index: index, total: MAX_QUESTIONS }]; spreading
    [undefined] adds no property. *)
Definition newQuestionPayload (question : option Question.t) (index : Z) : JsObject :=
  match question with Some q => Question.toObject q | None => [] end
  ++ [("index", JNum index); ("total", JNum MAX_QUESTIONS)].

Definition moveToNextQuestion (playerId : SocketId) (now : Z) (st : Server.t) : Server.t :=
  match getPlayer st playerId with
  | None => st
  | Some (r, player) =>
      let st := clearTimerOf player st in
      let player :=
        match Player.timer player with
        | Some _ => Player.set_timer None player
        | None => player
        end in
      let player := Player.set_questionIndex (Player.questionIndex player + 1) player in
      let st := setPlayer r player st in
      if Player.questionIndex player <? MAX_QUESTIONS then
        let nextQuestion := currentQuestion player in
        let st :=
          emit (Unicast playerId)
            (NewQuestion (newQuestionPayload nextQuestion (Player.questionIndex player + 1))) st in
        let st := startQuestionTimer playerId now st in
        broadcastLeaderboard st
      else
        let player := Player.set_status Finished player in
        let player := Player.set_totalTimeMs (now - Player.gameStartTime player) player in
        let st := setPlayer r player st in
        let st :=
          emit (Unicast playerId)
            (GameOver (Player.score player) (formatTime (Player.totalTimeMs player))) st in
        let st := broadcastLeaderboard st in
        checkAndNotifyWinners st
  end.

(** The callback of the interval [h]: one tick.  Reading [answer] of a
    missing question is a [TypeError] that nothing catches. *)
Definition intervalCallback (h : Handle) (st : Server.t) : Server.t :=
  match list_find (fun iv => Interval.handle iv = h) (Server.intervals st) with
  | None => st
  | Some (k, iv) =>
      let timeLeft := Interval.timeLeft iv - 1 in
      let iv := Interval.mk h (Interval.player iv) (Interval.socket iv) timeLeft in
      let st := Server.set_intervals (<[k := iv]> (Server.intervals st)) st in
      let st := emit (Unicast (Interval.socket iv)) (UpdateTimer timeLeft) st in
      if timeLeft <=? 0 then
        match Server.heap st !! Interval.player iv with
        | None => st
        | Some player =>
            let st := clearTimerOf player st in
            let player := Player.set_timer None player in
            let st := setPlayer (Interval.player iv) player st in
            match currentQuestion player with
            | None => Server.set_crashed true st
            | Some currentQ =>
                let st :=
                  emit (Unicast (Interval.socket iv))
                    (AnswerFeedback
                       (Feedback.mk false (Some "Time up!") (Some (Question.answer currentQ)))) st in
                setTimeout 2000 (Interval.socket iv) st
            end
        end
      else st
  end.

(** ** Socket handlers *)

(** Truthiness, for [playerName || ...]. *)
Definition truthy (v : JsVal) : bool :=
  match v with
  | JUndefined | JNull => false
  | JBool b => b
  | JNum z => negb (z =? 0)
  | JStr s => negb (bool_decide (s = ""))
  end.

Module JoinEnv.

(** What [joinGame] reads from its environment: the clock readings of
    the generator loop, the random draws, [Math.floor(Math.random() * 1000)]
    for the default name, and the clock at [gameStartTime] and at the
    start of the first timer. *)
Record t : Type := mk {
  clock : nat -> Z;
  draws : nat -> Draw;
  nameDraw : Z;
  startNow : Z;
  timerNow : Z
}.

(** The values the environment can give: [Math.floor(Math.random() * k)]
    is one of 0 .. k-1. *)
Definition possible (env : t) : bool :=
  forallb
    (fun i =>
       let d := draws env i in
       (0 <=? drawA d) && (drawA d <? 5) && (0 <=? drawB d) && (drawB d <? 10)
       && (0 <=? drawX d) && (drawX d <? 10))
    (seq 0 (Z.to_nat MAX_QUESTIONS))
  && (0 <=? nameDraw env) && (nameDraw env <? 1000).

End JoinEnv.

(** The [joinGame] handler, for a name that is a primitive value: the
    conversion of the stored name to a string for the console (line 222)
    cannot throw for such a name. *)
Definition joinGame (sid : SocketId) (playerName : JsVal) (env : JoinEnv.t) (st : Server.t) : Server.t :=
  let newQuestionSet := generateQuestionSet (JoinEnv.clock env) (JoinEnv.draws env) in
  let firstQuestion := index newQuestionSet 0 in
  let player :=
    Player.mk sid
      (if truthy playerName then playerName
       else JStr ("Player " +:+ toString (JoinEnv.nameDraw env)))
      0 0 newQuestionSet (JoinEnv.startNow env) 0 None InProgress None in
  let r := length (Server.heap st) in
  let st := Server.set_heap (Server.heap st ++ [player]) st in
  let st := Server.set_activePlayers (registry_set sid r (Server.activePlayers st)) st in
  let st := emit (Unicast sid) (NewQuestion (newQuestionPayload firstQuestion 1)) st in
  let st := startQuestionTimer sid (JoinEnv.timerNow env) st in
  let st := broadcastLeaderboard st in
  checkAndNotifyWinners st.

Module Data.

(** The payload of [submitAnswer], by its two properties; a property the
    payload does not have reads as [JUndefined]. *)
Record t : Type := mk { questionId : JsVal; answer : JsVal }.

End Data.

(** The [try] block of the [submitAnswer] handler.  [None] is a thrown
    [TypeError]: reading a property of a missing payload or of a missing
    current question.  Each of these reads comes before the first
    mutation of its path, so a throw leaves the state as it was.
    A payload that is [undefined] or [null] is [data = None]. *)
Definition submitAnswer_try (sid : SocketId) (r : Ref) (player : Player.t)
    (data : option Data.t) (st : Server.t) : option Server.t :=
  let currentQ := currentQuestion player in
  match data with
  | None => None
  | Some data =>
      let submittedAnswerInt := parseInt (Data.answer data) in
      match submittedAnswerInt with
      | None =>
          match currentQ with
          | None => None
          | Some currentQ =>
              let st :=
                emit (Unicast sid)
                  (AnswerFeedback
                     (Feedback.mk false (Some "Invalid Input.") (Some (Question.answer currentQ)))) st in
              Some (setTimeout 2000 sid st)
          end
      | Some submittedAnswerInt =>
          match currentQ with
          | None => None
          | Some currentQ =>
              let isCorrect :=
                strict_eq (Data.questionId data) (JNum (Question.id currentQ))
                && (submittedAnswerInt =? Question.answer currentQ) in
              let st := clearTimerOf player st in
              let player :=
                match Player.timer player with
                | Some _ => Player.set_timer None player
                | None => player
                end in
              let st := setPlayer r player st in
              if isCorrect then
                let player := Player.set_score (Player.score player + Question.points currentQ) player in
                let st := setPlayer r player st in
                let st :=
                  emit (Unicast sid)
                    (AnswerFeedback
                       (Feedback.mk true None (Some (Question.answer currentQ)))) st in
                Some (setTimeout 1000 sid st)
              else
                let st :=
                  emit (Unicast sid)
                    (AnswerFeedback
                       (Feedback.mk false (Some "Incorrect.") (Some (Question.answer currentQ)))) st in
                Some (setTimeout 2000 sid st)
          end
      end
  end.

Definition submitAnswer (sid : SocketId) (data : option Data.t) (st : Server.t) : Server.t :=
  match getPlayer st sid with
  | None => st
  | Some (r, player) =>
      if Player.finished player then st
      else
        match submitAnswer_try sid r player data st with
        | Some st' => st'
        | None =>
            let st :=
              emit (Unicast sid)
                (AnswerFeedback
                   (Feedback.mk false (Some "Server Error.")
                      (Question.answer <$> currentQuestion player))) st in
            setTimeout 3000 sid st
        end
  end.

Definition disconnect (sid : SocketId) (st : Server.t) : Server.t :=
  let st :=
    match getPlayer st sid with
    | Some (_, player) => clearTimerOf player st
    | None => st
    end in
  let st := Server.set_activePlayers (registry_delete sid (Server.activePlayers st)) st in
  let st := broadcastLeaderboard st in
  checkAndNotifyWinners st.

Definition connection (sid : SocketId) (st : Server.t) : Server.t :=
  broadcastLeaderboard st.

(** ** The event loop *)

(** What the event loop can run next: a socket event of a client, a tick
    of a live interval, or a pending timeout (any of them: their order is
    that of their due times, which the model leaves open). *)
Inductive Input : Type :=
  | Connection (sid : SocketId)
  | JoinGame (sid : SocketId) (playerName : JsVal) (env : JoinEnv.t)
  | SubmitAnswer (sid : SocketId) (data : option Data.t)
  | Disconnect (sid : SocketId)
  | IntervalFires (h : Handle)
  | TimeoutFires (k : nat) (now : Z).

(** One handler run; [None] when the input is not enabled: a message of
    a socket that is not connected, random draws out of their ranges, an
    interval that is not live, a missing timeout, or a process that has
    died. *)
Definition step (i : Input) (st : Server.t) : option Server.t :=
  if Server.crashed st then None
  else
    match i with
    | Connection sid =>
        if bool_decide (sid ∈ Server.sockets st) then None
        else Some (connection sid (Server.set_sockets (Server.sockets st ++ [sid]) st))
    | JoinGame sid playerName env =>
        if bool_decide (sid ∈ Server.sockets st) && JoinEnv.possible env
        then Some (joinGame sid playerName env st) else None
    | SubmitAnswer sid data =>
        if bool_decide (sid ∈ Server.sockets st)
        then Some (submitAnswer sid data st) else None
    | Disconnect sid =>
        if bool_decide (sid ∈ Server.sockets st)
        then Some (disconnect sid
                     (Server.set_sockets (filter (fun s => s <> sid) (Server.sockets st)) st))
        else None
    | IntervalFires h =>
        match list_find (fun iv => Interval.handle iv = h) (Server.intervals st) with
        | Some _ => Some (intervalCallback h st)
        | None => None
        end
    | TimeoutFires k now =>
        match Server.timeouts st !! k with
        | Some (_, sid) =>
            Some (moveToNextQuestion sid now
                    (Server.set_timeouts (delete k (Server.timeouts st)) st))
        | None => None
        end
    end.

Fixpoint run (tr : list Input) (st : Server.t) : option Server.t :=
  match tr with
  | [] => Some st
  | i :: tr' =>
      match step i st with
      | Some st' => run tr' st'
      | None => None
      end
  end.

(** The states the server can be in. *)
Definition reachable (st : Server.t) : Prop :=
  exists tr, run tr Server.init = Some st.

(** ** The specification's orders, in its own words *)

(** Leaderboard: [Finished] before [InProgress]; within [Finished] by
    score descending, then elapsed time ascending; within [InProgress] by
    score descending. *)
Definition ranksBefore (a b : Player.t) : Prop :=
  match Player.status a, Player.status b with
  | Finished, InProgress => True
  | InProgress, Finished => False
  | Finished, Finished =>
      Player.score a > Player.score b
      \/ (Player.score a = Player.score b /\ Player.totalTimeMs a <= Player.totalTimeMs b)
  | InProgress, InProgress => Player.score a >= Player.score b
  end.

(** Two sessions that the leaderboard keys do not tell apart. *)
Definition sameRank (a b : Player.t) : Prop :=
  Player.status a = Player.status b
  /\ Player.score a = Player.score b
  /\ (Player.status a = Finished -> Player.totalTimeMs a = Player.totalTimeMs b).

#[global] Instance sameRank_dec a b : Decision (sameRank a b).
Proof. unfold sameRank. apply _. Defined.

(** Winners: score descending, then elapsed time ascending. *)
Definition winsBefore (a b : Player.t) : Prop :=
  Player.score a > Player.score b
  \/ (Player.score a = Player.score b /\ Player.totalTimeMs a <= Player.totalTimeMs b).

(** A finished session with the given score and elapsed time. *)
Definition finishedWith (score elapsedMs : Z) (p : Player.t) : Prop :=
  Player.status p = Finished /\ Player.score p = score /\ Player.totalTimeMs p = elapsedMs.

(** ** Invariants of player objects *)

Definition player_ok (p : Player.t) : Prop :=
  0 <= Player.questionIndex p
  /\ length (Player.questionSet p) = Z.to_nat MAX_QUESTIONS
  /\ (Player.status p = Finished <-> MAX_QUESTIONS <= Player.questionIndex p).

Definition heap_ok (st : Server.t) : Prop := Forall player_ok (Server.heap st).

(** Every live interval belongs to a running player whose [timer] is
    that interval. *)
Definition timers_ok (st : Server.t) : Prop :=
  forall iv, iv ∈ Server.intervals st ->
    exists p, Server.heap st !! Interval.player iv = Some p
              /\ Player.timer p = Some (Interval.handle iv)
              /\ Player.status p = InProgress.

(** How a player object may change over a handler run: its index does
    not go back and, once finished, it stays finished. *)
Definition player_advances (p p' : Player.t) : Prop :=
  Player.questionIndex p <= Player.questionIndex p'
  /\ (Player.status p = Finished -> Player.status p' = Finished).

Definition heap_advances (h h' : list Player.t) : Prop :=
  forall r p, h !! r = Some p -> exists p', h' !! r = Some p' /\ player_advances p p'.

(** Status, index and elapsed time of the session of a socket. *)
Definition progressOf (st : Server.t) (sid : SocketId) : option (Status * Z * Z) :=
  match getPlayer st sid with
  | Some (_, p) => Some (Player.status p, Player.questionIndex p, Player.totalTimeMs p)
  | None => None
  end.

(** ** Scenarios *)

Definition env0 : JoinEnv.t :=
  JoinEnv.mk (fun _ => 1700000000000) (fun i => mkDraw 1 2 (Z.of_nat i mod 10))
    7 1700000000000 1700000000000.

(** Alice connects and joins: question 1 is out and its timer runs. *)
Definition joined : list Input :=
  [Connection "s1"; JoinGame "s1" (JStr "Alice") env0].

Definition notANumber : option Data.t := Some (Data.mk JUndefined (JStr "abc")).

Definition wrongAnswer : option Data.t := Some (Data.mk JUndefined (JStr "0")).

(** One wrong answer and the advance it schedules. *)
Definition round : list Input :=
  [SubmitAnswer "s1" wrongAnswer; TimeoutFires 0 1700000005000].

(** Nine rounds, then two submissions on question 10 before the first of
    their delayed advances fires; the first advance finishes the game. *)
Definition finishedWithPendingAdvance : list Input :=
  joined ++ concat (replicate 9 round)
  ++ [SubmitAnswer "s1" wrongAnswer; SubmitAnswer "s1" wrongAnswer;
      TimeoutFires 0 1700000050000].

(** ... and the second advance fires on the finished session. *)
Definition advanceAfterFinish : list Input :=
  finishedWithPendingAdvance ++ [TimeoutFires 0 1700000051000].

(** The states after these runs. *)
Definition joinedState : Server.t :=
  default Server.init (run joined Server.init).

Definition finishedState : Server.t :=
  default Server.init (run finishedWithPendingAdvance Server.init).

Definition afterFinishState : Server.t :=
  default Server.init (run advanceAfterFinish Server.init).

Definition secondQuestionState : Server.t :=
  default Server.init (run (joined ++ round) Server.init).

(** Alice's player object after joining. *)
Definition alice : Player.t :=
  Player.mk "s1" (JStr "Alice") 0 0
    (generateQuestionSet (JoinEnv.clock env0) (JoinEnv.draws env0))
    1700000000000 0 (Some O) InProgress (Some 1700000000000).

(** The right answer to Alice's first question, sent as a string. *)
Definition rightAnswer : Data.t := Data.mk (JNum 1700000000000) (JStr "1").

Definition finishedPlayer (name : string) (score elapsedMs : Z) : Player.t :=
  Player.mk name (JStr name) score 10 [] 0 elapsedMs None Finished None.

Definition runningPlayer (name : string) (score : Z) : Player.t :=
  Player.mk name (JStr name) score 3 [] 0 0 None InProgress None.

(** A registry order for the winners scenario, with a running session
    in between. *)
Definition scenarioPlayers : list Player.t :=
  [finishedPlayer "B" 100 6000; runningPlayer "D" 110;
   finishedPlayer "A" 100 5000; finishedPlayer "C" 90 4000].

(** ** Further invariants *)

(** Interval handles are issued once, counting up. *)
Definition handles_ok (st : Server.t) : Prop :=
  NoDup (map Interval.handle (Server.intervals st))
  /\ Forall (fun iv => (Interval.handle iv < Server.nextHandle st)%nat) (Server.intervals st).

(** What a handler run keeps of a player object: its identity and its
    questions; and its score does not go down when no question has
    negative points. *)
Definition player_grows (p p' : Player.t) : Prop :=
  Player.id p' = Player.id p
  /\ Player.name p' = Player.name p
  /\ Player.questionSet p' = Player.questionSet p
  /\ Player.gameStartTime p' = Player.gameStartTime p
  /\ (Forall (fun q => 0 <= Question.points q) (Player.questionSet p) ->
      Player.score p <= Player.score p').

(** Every question of every player object is worth 10 points. *)
Definition quiz_ok (st : Server.t) : Prop :=
  Forall (fun p => Forall (fun q => Question.points q = 10) (Player.questionSet p))
    (Server.heap st).

(** The registry has one entry per socket id, only for connected sockets,
    and each entry names a player object that carries that id. *)
Definition registry_ok (st : Server.t) : Prop :=
  NoDup (map fst (Server.activePlayers st))
  /\ NoDup (Server.sockets st)
  /\ Forall
       (fun kv =>
          kv.1 ∈ Server.sockets st
          /\ exists p, Server.heap st !! kv.2 = Some p /\ Player.id p = kv.1)
       (Server.activePlayers st).

(** Alice has joined and her timer has ticked 59 times. *)
Definition lastSecondState : Server.t :=
  default Server.init (run (joined ++ replicate 59 (IntervalFires O)) Server.init).

(** The player object that [joinGame] creates. *)
Definition newPlayer (sid : SocketId) (playerName : JsVal) (env : JoinEnv.t) : Player.t :=
  Player.mk sid
    (if truthy playerName then playerName
     else JStr ("Player " +:+ toString (JoinEnv.nameDraw env)))
    0 0 (generateQuestionSet (JoinEnv.clock env) (JoinEnv.draws env))
    (JoinEnv.startNow env) 0 None InProgress None.

(** The player objects that a run of inputs creates, in order. *)
Definition joinedPlayers (tr : list Input) : list Player.t :=
  omap (fun i => match i with
                 | JoinGame sid playerName env => Some (newPlayer sid playerName env)
                 | _ => None
                 end) tr.

(** Alice's player object when her game is over. *)
Definition aliceFinished : Player.t :=
  Player.mk "s1" (JStr "Alice") 0 10 (Player.questionSet alice)
    1700000000000 50000 None Finished (Some 1700000005000).

(** Alice has answered once and the advance is pending; then she leaves. *)
Definition submittedState : Server.t :=
  default Server.init (run (joined ++ [SubmitAnswer "s1" wrongAnswer]) Server.init).

Definition disconnectedState : Server.t :=
  default Server.init
    (run (joined ++ [SubmitAnswer "s1" wrongAnswer; Disconnect "s1"]) Server.init).

(** The handles that the [timer] fields of a heap hold were issued
    before [n], and no two player objects hold the same one. *)
Definition handles_held (h : list Player.t) (n : Handle) : Prop :=
  (forall r p k, h !! r = Some p -> Player.timer p = Some k -> (k < n)%nat)
  /\ (forall r1 r2 p1 p2 k,
        h !! r1 = Some p1 -> h !! r2 = Some p2 ->
        Player.timer p1 = Some k -> Player.timer p2 = Some k -> r1 = r2).

Definition timer_fields_ok (st : Server.t) : Prop :=
  handles_held (Server.heap st) (Server.nextHandle st).

(** Bob connects and joins after Alice. *)
Definition twoJoinedState : Server.t :=
  default Server.init
    (run (joined ++ [Connection "s2"; JoinGame "s2" (JStr "Bob") env0]) Server.init).

(** Nine rounds, then one answer on question 10: the advance that will
    finish Alice's game is pending. *)
Definition lastQuestion : list Input :=
  joined ++ concat (replicate 9 round) ++ [SubmitAnswer "s1" wrongAnswer].

Definition lastQuestionState : Server.t :=
  default Server.init (run lastQuestion Server.init).

Definition aliceLastQuestion : Player.t :=
  Player.mk "s1" (JStr "Alice") 0 9 (Player.questionSet alice)
    1700000000000 0 None InProgress (Some 1700000005000).

(** ** Uncaught exceptions

    A handler that throws outside a [try] ends the process.  One value a
    client can send does this, and it is not a [JsVal]: a name that is an
    object with no conversion to a string, such as [{toString: 1}].  The
    [joinGame] handler keeps it as the name (an object is truthy) and
    then prints the stored name in a template literal
    ([console.log(`Player joined: ${...name}`)]), where the conversion
    throws a [TypeError]. *)
Inductive Event : Type :=
  | Run (i : Input)
  | JoinGameUnprintable (sid : SocketId).

(** What becomes of the server when an event is handled: it goes on in
    the next state, the process dies of an uncaught exception, or the
    event cannot occur. *)
Inductive Outcome : Type :=
  | Next (st : Server.t)
  | Uncaught
  | Disabled.

Definition outcome (e : Event) (st : Server.t) : Outcome :=
  match e with
  | Run i =>
      match step i st with
      | Some st' => if Server.crashed st' then Uncaught else Next st'
      | None => Disabled
      end
  | JoinGameUnprintable sid =>
      if Server.crashed st then Disabled
      else if bool_decide (sid ∈ Server.sockets st) then Uncaught else Disabled
  end.

(** * Properties *)

(** ** Printing and parsing numbers *)

Lemma digit_roundtrip d : 0 <= d < 10 -> digit_of_ascii (ascii_of_digit d) = Some d.
Proof.
  intros Hd.
  assert (Hc : d = 0 \/ d = 1 \/ d = 2 \/ d = 3 \/ d = 4 \/ d = 5 \/ d = 6
               \/ d = 7 \/ d = 8 \/ d = 9) by lia.
  repeat (destruct Hc as [-> | Hc]; [reflexivity |]). subst d. reflexivity.
Qed.

Lemma digit_not_sign c d :
  digit_of_ascii c = Some d -> is_whitespace c = false /\ c <> "-"%char /\ c <> "+"%char.
Proof.
  destruct c as [[] [] [] [] [] [] [] []]; vm_compute; intros H; try discriminate H;
    repeat split; discriminate.
Qed.

Lemma digits_fuel_S f n acc :
  digits_fuel (S f) n acc
  = if n / 10 =? 0 then String (ascii_of_digit (n mod 10)) acc
    else digits_fuel f (n / 10) (String (ascii_of_digit (n mod 10)) acc).
Proof. reflexivity. Qed.

Lemma parse_digits_fuel f :
  forall n a rest, 0 <= n < 10 ^ Z.of_nat (S f) ->
    exists k, 0 <= k /\
      parse_digits (digits_fuel (S f) n rest) a
      = parse_digits rest (Some (10 ^ k * default 0 a + n)).
Proof.
  induction f as [| f IH]; intros n a rest Hn.
  - exists 1. split; [lia |]. change (10 ^ Z.of_nat 1) with 10 in Hn.
    rewrite digits_fuel_S. rewrite Z.div_small by lia. cbn [Z.eqb parse_digits].
    rewrite Z.mod_small by lia. rewrite digit_roundtrip by lia.
    first [reflexivity | do 2 f_equal; lia].
  - rewrite digits_fuel_S. destruct (n / 10 =? 0) eqn:Hq.
    + exists 1. split; [lia |]. apply Z.eqb_eq in Hq.
      assert (n < 10) by (apply Z.div_small_iff in Hq; lia).
      cbn [parse_digits]. rewrite Z.mod_small by lia. rewrite digit_roundtrip by lia.
      first [reflexivity | do 2 f_equal; lia].
    + destruct (IH (n / 10) a (String (ascii_of_digit (n mod 10)) rest)) as (k & Hk & ->).
      { split; [apply Z.div_pos; lia |].
        apply Z.div_lt_upper_bound; [lia |].
        replace (Z.of_nat (S (S f))) with (Z.succ (Z.of_nat (S f))) in Hn by lia.
        rewrite Z.pow_succ_r in Hn by lia. apply Hn. }
      exists (k + 1). split; [lia |].
      cbn [parse_digits]. rewrite digit_roundtrip by (apply Z.mod_pos_bound; lia).
      cbn [default]. do 2 f_equal.
      rewrite Z.pow_add_r by lia. change (10 ^ 1) with 10.
      pose proof (Z.div_mod n 10 ltac:(lia)). generalize (10 ^ k).
      intros X. unfold id. lia.
Qed.

Lemma decimal_fuel n : 0 <= n -> n < 10 ^ Z.of_nat (S (Z.to_nat (Z.log2 n))).
Proof.
  intros Hn. rewrite Nat2Z.inj_succ, Z2Nat.id by apply Z.log2_nonneg.
  destruct (decide (n = 0)) as [-> | Hne]; [reflexivity |].
  pose proof (Z.log2_spec n ltac:(lia)) as [_ Hlt].
  eapply Z.lt_le_trans; [exact Hlt |].
  apply Z.pow_le_mono_l. lia.
Qed.

Lemma decimal_head n :
  0 <= n -> exists c s d, decimal n = String c s /\ digit_of_ascii c = Some d.
Proof.
  intros Hn. unfold decimal.
  generalize (Z.to_nat (Z.log2 n)) as f. intros f. revert n Hn.
  generalize EmptyString as acc.
  induction f as [| f IH]; intros acc n Hn; rewrite digits_fuel_S.
  - destruct (n / 10 =? 0); eexists _, _, _; (split; [reflexivity |]);
      apply digit_roundtrip, Z.mod_pos_bound; lia.
  - destruct (n / 10 =? 0).
    + eexists _, _, _; (split; [reflexivity |]);
      apply digit_roundtrip, Z.mod_pos_bound; lia.
    + apply IH. apply Z.div_pos; lia.
Qed.

Lemma parse_decimal n : 0 <= n -> parse_digits (decimal n) None = Some n.
Proof.
  intros Hn. unfold decimal.
  destruct (parse_digits_fuel (Z.to_nat (Z.log2 n)) n None "") as (k & _ & ->).
  { split; [lia | by apply decimal_fuel]. }
  cbn. f_equal. lia.
Qed.

(** [parseInt] reads back the number that [toString] printed. *)
Lemma parseInt_toString z : parseInt (JStr (toString z)) = Some z.
Proof.
  unfold parseInt, ToString, toString. destruct (z <? 0) eqn:Hz.
  - apply Z.ltb_lt in Hz. cbn [skip_whitespace]. 
    change (is_whitespace "-") with false. cbv iota.
    rewrite parse_decimal by lia. cbn. f_equal. lia.
  - apply Z.ltb_ge in Hz.
    destruct (decimal_head z Hz) as (c & s & d & Heq & Hd).
    pose proof (parse_decimal z Hz) as Hp. rewrite Heq in *.
    apply digit_not_sign in Hd as (Hw & Hm & Hplus).
    cbn [skip_whitespace]. rewrite Hw.
    destruct c as [[] [] [] [] [] [] [] []]; try exact Hp; congruence.
Qed.

Lemma parseInt_JNum z : parseInt (JNum z) = Some z.
Proof. exact (parseInt_toString z). Qed.

Example parseInt_skips_blanks_and_stops : parseInt (JStr "  -12ab") = Some (-12).
Proof. reflexivity. Qed.

Example parseInt_of_word : parseInt (JStr "abc") = None.
Proof. reflexivity. Qed.

Example parseInt_of_undefined : parseInt JUndefined = None.
Proof. reflexivity. Qed.

(** ** Time formatting *)

Lemma append_cancel_l (a b c : string) : a +:+ b = a +:+ c -> b = c.
Proof. induction a as [| x a IH]; cbn; [done |]. intros [= H]. auto. Qed.

Lemma fraction_digits_agree m :
  0 <= m < 1000 ->
  padStart 2 "0" (slice0 2 (toString m)) = padStart 2 "0" (toString (m / 10))
  <-> (m = 0 \/ 100 <= m).
Proof.
  intros Hm.
  assert (Hall : Forall (fun m =>
            bool_decide (padStart 2 "0" (slice0 2 (toString m))
                         = padStart 2 "0" (toString (m / 10)))
            = bool_decide (m = 0 \/ 100 <= m)) (seqZ 0 1000)).
  { apply (bool_decide_unpack _). vm_compute. reflexivity. }
  rewrite Forall_forall in Hall. specialize (Hall m).
  rewrite elem_of_seqZ in Hall. specialize (Hall ltac:(lia)).
  split; intros H.
  - apply (bool_decide_unpack _). rewrite <- Hall. by apply bool_decide_pack.
  - apply (bool_decide_unpack _). rewrite Hall. by apply bool_decide_pack.
Qed.

(** Where the rendering of the code and that of the specification agree:
    exactly on the times whose millisecond part is 0 or has three digits. *)
Lemma formatTime_agrees_iff ms :
  0 <= ms ->
  formatTime ms = formatTime_spec ms <-> (ms mod 1000 = 0 \/ 100 <= ms mod 1000).
Proof.
  intros Hms. unfold formatTime, formatTime_spec. cbv zeta.
  rewrite !Z.rem_mod_nonneg by (try apply Z.div_pos; lia).
  rewrite Z.div_div by lia. change (1000 * 60) with 60000.
  rewrite <- (fraction_digits_agree (ms mod 1000)) by (apply Z.mod_pos_bound; lia).
  split; intros H.
  - by do 4 apply append_cancel_l in H.
  - by rewrite H.
Qed.

(** C8, evaluated: the millisecond part is cut to its first two
    characters before it is padded, so 50 ms print as [.50] and 5 ms as
    [.05], where the two leading sub-second digits are [05] and [00];
    with three millisecond digits the two renderings are the same. *)
Theorem formatTime_pads_after_slicing :
  formatTime 65050 = "01:05.50" /\ formatTime_spec 65050 = "01:05.05"
  /\ formatTime 5005 = "00:05.05" /\ formatTime_spec 5005 = "00:05.00"
  /\ formatTime 125340 = "02:05.34" /\ formatTime_spec 125340 = "02:05.34".
Proof. vm_compute. done. Qed.

(** ** Sorting *)

Section sort_by.
Context {A : Type} (cmp : A -> A -> Z).

Lemma insert_by_Permutation x l : insert_by cmp x l ≡ₚ x :: l.
Proof.
  induction l as [| y l IH]; cbn; [done |].
  destruct (cmp x y <=? 0); [done |].
  rewrite IH. apply Permutation_swap.
Qed.

Lemma sort_by_Permutation l : sort_by cmp l ≡ₚ l.
Proof.
  induction l as [| x l IH]; cbn; [done |].
  by rewrite insert_by_Permutation, IH.
Qed.

(** The sorted output, for a relation [R] that the comparator decides. *)
Section sorted.
Context (R : relation A) `{!Transitive R}.
Hypothesis cmp_le : forall x y, cmp x y <= 0 -> R x y.
Hypothesis cmp_gt : forall x y, 0 < cmp x y -> R y x.

Lemma insert_by_StronglySorted x l :
  StronglySorted R l -> StronglySorted R (insert_by cmp x l).
Proof.
  induction 1 as [| y l Hl IH Hy]; cbn.
  - repeat constructor.
  - destruct (cmp x y <=? 0) eqn:Hc.
    + apply Z.leb_le, cmp_le in Hc.
      constructor; [by constructor |].
      constructor; [done |].
      eapply Forall_impl; [exact Hy |]. intros z Hz. by trans y.
    + apply Z.leb_gt, cmp_gt in Hc.
      constructor; [done |].
      rewrite insert_by_Permutation. by constructor.
Qed.

Lemma sort_by_StronglySorted l : StronglySorted R (sort_by cmp l).
Proof.
  induction l as [| x l IH]; cbn; [constructor |].
  by apply insert_by_StronglySorted.
Qed.
End sorted.

(** Stability: elements that the comparator does not separate keep
    their relative order. *)
Section stable.
Context (P : A -> Prop) `{!forall x, Decision (P x)}.
Hypothesis tied : forall x y, P x -> P y -> cmp x y <= 0.

Lemma insert_by_filter x l :
  filter P (insert_by cmp x l) = filter P (x :: l).
Proof.
  induction l as [| y l IH]; cbn; [done |].
  destruct (cmp x y <=? 0) eqn:Hc; [done |].
  apply Z.leb_gt in Hc.
  rewrite (filter_cons _ y), IH, !filter_cons.
  destruct (decide (P x)) as [Hx |], (decide (P y)) as [Hy |]; try done.
  specialize (tied x y Hx Hy). lia.
Qed.

Lemma sort_by_stable l : filter P (sort_by cmp l) = filter P l.
Proof.
  induction l as [| x l IH]; cbn; [done |].
  by rewrite insert_by_filter, !filter_cons, IH.
Qed.
End stable.
End sort_by.

(** A list is determined by its elements, a total preorder that sorts
    it, and the relative order of the elements the preorder ties. *)
Lemma stable_sorted_unique {A} (R E : relation A) `{!forall x y, Decision (E x y)} :
  (forall x y, R x y -> R y x -> E x y) ->
  (forall x, E x x) ->
  forall l1 l2 : list A,
    l1 ≡ₚ l2 -> StronglySorted R l1 -> StronglySorted R l2 ->
    (forall a, filter (E a) l1 = filter (E a) l2) -> l1 = l2.
Proof.
  intros Hanti Hrefl l1.
  induction l1 as [| x l1 IH]; intros l2 Hp Hs1 Hs2 Hf.
  - by apply Permutation_nil_l in Hp.
  - destruct l2 as [| y l2]; [by apply Permutation_nil_r in Hp |].
    apply StronglySorted_inv in Hs1 as [Hs1 Hx].
    apply StronglySorted_inv in Hs2 as [Hs2 Hy].
    assert (x = y) as <-.
    { assert (Hin1 : y ∈ x :: l1) by (rewrite Hp; left).
      assert (Hin2 : x ∈ y :: l2) by (rewrite <- Hp; left).
      apply elem_of_cons in Hin1 as [? | Hin1]; [done |].
      apply elem_of_cons in Hin2 as [? | Hin2]; [done |].
      assert (Hxy : R x y) by by eapply Forall_forall in Hx.
      assert (Hyx : R y x) by by eapply Forall_forall in Hy.
      pose proof (Hf x) as Hfx.
      rewrite !filter_cons_True in Hfx by auto. by injection Hfx. }
    f_equal. apply IH; [by eapply Permutation_cons_inv | done | done |].
    intros a. specialize (Hf a). rewrite !filter_cons in Hf.
    destruct (decide (E a x)); [by injection Hf | done].
Qed.

(** ** Leaderboard order *)

Lemma finished_status a :
  Player.finished a = match Player.status a with Finished => true | InProgress => false end.
Proof. unfold Player.finished. by destruct (Player.status a). Qed.

Lemma leaderboardCompare_le a b : leaderboardCompare a b <= 0 -> ranksBefore a b.
Proof.
  unfold leaderboardCompare, ranksBefore. rewrite !finished_status.
  destruct (Player.status a), (Player.status b); cbn; try lia.
  destruct (Player.score b =? Player.score a) eqn:Hs; cbn; lia.
Qed.

Lemma leaderboardCompare_gt a b : 0 < leaderboardCompare a b -> ranksBefore b a.
Proof.
  unfold leaderboardCompare, ranksBefore. rewrite !finished_status.
  destruct (Player.status a), (Player.status b); cbn; try lia.
  destruct (Player.score b =? Player.score a) eqn:Hs; cbn; lia.
Qed.

#[local] Instance ranksBefore_trans : Transitive ranksBefore.
Proof.
  intros a b c. unfold ranksBefore.
  destruct (Player.status a), (Player.status b), (Player.status c); lia.
Qed.

Lemma ranksBefore_total a b : ranksBefore a b \/ ranksBefore b a.
Proof.
  unfold ranksBefore. destruct (Player.status a), (Player.status b); lia.
Qed.

Lemma ranksBefore_antisym a b : ranksBefore a b -> ranksBefore b a -> sameRank a b.
Proof.
  unfold ranksBefore, sameRank.
  destruct (Player.status a), (Player.status b); intros; repeat split; try done; lia.
Qed.

Lemma sameRank_tied c a b :
  sameRank c a -> sameRank c b -> leaderboardCompare a b <= 0.
Proof.
  unfold sameRank, leaderboardCompare. rewrite !finished_status.
  intros (Hs1 & Hn1 & Ht1) (Hs2 & Hn2 & Ht2).
  rewrite <- Hs1, <- Hs2. destruct (Player.status c); cbn; [lia |].
  rewrite <- Hn1, <- Hn2, Z.eqb_refl. cbn. rewrite <- Ht1, <- Ht2 by done. lia.
Qed.

(** The leaderboard order is the only arrangement of the sessions that
    is sorted by the ranking keys and keeps tied sessions in registry
    order: no other stable sort could answer differently. *)
Lemma rank_unique (ps l : list Player.t) :
  l ≡ₚ ps -> StronglySorted ranksBefore l ->
  (forall a, filter (sameRank a) l = filter (sameRank a) ps) ->
  l = rank ps.
Proof.
  intros Hp Hs Hf.
  apply (stable_sorted_unique ranksBefore sameRank).
  - apply ranksBefore_antisym.
  - intros x. by repeat split.
  - by rewrite Hp, (sort_by_Permutation leaderboardCompare ps).
  - done.
  - apply (sort_by_StronglySorted _ _ leaderboardCompare_le leaderboardCompare_gt).
  - intros a. rewrite Hf. symmetry.
    apply sort_by_stable, sameRank_tied.
Qed.

(** C5: the leaderboard lists the sessions of the registry, all finished
    ones before all running ones, finished ones by score descending then
    elapsed time ascending, running ones by score descending, and sessions
    with equal keys in registry order; any two sessions are comparable. *)
Theorem rank_total_stable_order :
  (forall ps : list Player.t,
      rank ps ≡ₚ ps
      /\ StronglySorted ranksBefore (rank ps)
      /\ forall a, filter (sameRank a) (rank ps) = filter (sameRank a) ps)
  /\ (forall a b, ranksBefore a b \/ ranksBefore b a)
  /\ (forall st,
        Server.emitted (broadcastLeaderboard st)
        = Server.emitted st
          ++ [(Broadcast, UpdateLeaderboard (map leaderboardEntry (rank (players st))));
              (Broadcast, PlayerCount (length (players st)))]).
Proof.
  split; [| split].
  - intros ps. split; [| split].
    + apply sort_by_Permutation.
    + apply (sort_by_StronglySorted _ _ leaderboardCompare_le leaderboardCompare_gt).
    + intros a. apply sort_by_stable, sameRank_tied.
  - apply ranksBefore_total.
  - intros st. unfold broadcastLeaderboard, emit. cbn.
    rewrite <- app_assoc, length_map. cbn. do 4 f_equal.
    unfold rank. by rewrite (sort_by_Permutation leaderboardCompare).
Qed.

(** ** Winners *)

Lemma winnersCompare_le a b : winnersCompare a b <= 0 -> winsBefore a b.
Proof.
  unfold winnersCompare, winsBefore.
  destruct (Player.score b =? Player.score a) eqn:Hs; cbn; lia.
Qed.

Lemma winnersCompare_gt a b : 0 < winnersCompare a b -> winsBefore b a.
Proof.
  unfold winnersCompare, winsBefore.
  destruct (Player.score b =? Player.score a) eqn:Hs; cbn; lia.
Qed.

#[local] Instance winsBefore_trans : Transitive winsBefore.
Proof. intros a b c. unfold winsBefore. lia. Qed.

Lemma sorted_finished_Permutation ps :
  sort_by winnersCompare (filter (fun p => Player.status p = Finished) ps)
  ≡ₚ filter (fun p => Player.status p = Finished) ps.
Proof. apply sort_by_Permutation. Qed.

Lemma sorted_finished_StronglySorted ps :
  StronglySorted winsBefore
    (sort_by winnersCompare (filter (fun p => Player.status p = Finished) ps)).
Proof. apply (sort_by_StronglySorted _ _ winnersCompare_le winnersCompare_gt). Qed.

(** C6: the winners are at most three, they are finished sessions of the
    registry, they come by score descending then elapsed time ascending
    ahead of every other finished session, and finished sessions with
    (100, 5000), (100, 6000) and (90, 4000) come out in that order. *)
Theorem winners_top3_of_finished (ps : list Player.t) :
  winners ps = map winnerOf (topFinished ps)
  /\ (length (winners ps) <= 3)%nat
  /\ Forall (fun p => p ∈ ps /\ Player.status p = Finished) (topFinished ps)
  /\ StronglySorted winsBefore (topFinished ps)
  /\ (exists rest,
        topFinished ps ++ rest ≡ₚ filter (fun p => Player.status p = Finished) ps
        /\ StronglySorted winsBefore (topFinished ps ++ rest))
  /\ (forall pa pb pc,
        finishedWith 100 5000 pa -> finishedWith 100 6000 pb -> finishedWith 90 4000 pc ->
        filter (fun p => Player.status p = Finished) ps ≡ₚ [pa; pb; pc] ->
        topFinished ps = [pa; pb; pc]).
Proof.
  pose proof (sorted_finished_Permutation ps) as Hperm.
  pose proof (sorted_finished_StronglySorted ps) as Hsorted.
  assert (Hsplit : topFinished ps
                   ++ drop 3 (sort_by winnersCompare
                                (filter (fun p => Player.status p = Finished) ps))
                   = sort_by winnersCompare
                       (filter (fun p => Player.status p = Finished) ps))
    by apply take_drop.
  split; [done |]. split.
  { unfold winners, topFinished. rewrite length_map, length_take. lia. }
  split.
  { apply Forall_forall. intros p Hp.
    assert (Hin : p ∈ filter (fun p => Player.status p = Finished) ps).
    { rewrite <- Hperm, <- Hsplit. apply elem_of_app. by left. }
    by apply list_elem_of_filter in Hin as [? ?]. }
  split.
  { rewrite <- Hsplit in Hsorted. by apply StronglySorted_app_1_l in Hsorted. }
  split.
  { eexists. rewrite Hsplit. split; done. }
  intros pa pb pc (Fa & Sa & Ta) (Fb & Sb & Tb) (Fc & Sc & Tc) Hfin.
  unfold topFinished.
  assert (Heq : sort_by winnersCompare (filter (fun p => Player.status p = Finished) ps)
                = [pa; pb; pc]).
  { apply (StronglySorted_unique_strong winsBefore); [| done | |].
    - intros x y Hx Hy. rewrite Hperm, Hfin in Hx.
      unfold winsBefore.
      apply elem_of_cons in Hx as [-> | Hx]; [| apply elem_of_cons in Hx as [-> | Hx]];
        [| | apply list_elem_of_singleton in Hx as ->];
        (apply elem_of_cons in Hy as [-> | Hy]; [| apply elem_of_cons in Hy as [-> | Hy]];
         [| | apply list_elem_of_singleton in Hy as ->]); try done; lia.
    - unfold winsBefore. repeat constructor; lia.
    - by rewrite Hperm. }
  by rewrite Heq.
Qed.

Lemma winners_nil ps :
  (forall p, p ∈ ps -> Player.status p <> Finished) -> winners ps = [].
Proof.
  intros H. unfold winners, topFinished.
  replace (filter (fun p => Player.status p = Finished) ps) with (@nil Player.t); [done |].
  symmetry. induction ps as [| p ps IH]; [done |].
  rewrite filter_cons_False by (apply H; left).
  apply IH. intros q Hq. apply H. by right.
Qed.

(** C10: with no finished session in the registry, the winners
    recomputation leaves the state as it is: nothing is emitted. *)
Theorem no_finished_no_notification (st : Server.t) :
  (forall p, p ∈ players st -> Player.status p <> Finished) ->
  checkAndNotifyWinners st = st
  /\ Server.emitted (checkAndNotifyWinners st) = Server.emitted st.
Proof.
  intros H. unfold checkAndNotifyWinners. by rewrite winners_nil.
Qed.

Lemma winners_top3_of_finished_witness :
  finishedWith 100 5000 (finishedPlayer "A" 100 5000)
  /\ finishedWith 100 6000 (finishedPlayer "B" 100 6000)
  /\ finishedWith 90 4000 (finishedPlayer "C" 90 4000)
  /\ filter (fun p => Player.status p = Finished) scenarioPlayers
     ≡ₚ [finishedPlayer "A" 100 5000; finishedPlayer "B" 100 6000; finishedPlayer "C" 90 4000]
  /\ winners scenarioPlayers
     = [Winner.mk (JStr "A") 100 "00:05.00"; Winner.mk (JStr "B") 100 "00:06.00";
        Winner.mk (JStr "C") 90 "00:04.00"].
Proof.
  assert (Ha : finishedWith 100 5000 (finishedPlayer "A" 100 5000)) by (repeat split).
  assert (Hb : finishedWith 100 6000 (finishedPlayer "B" 100 6000)) by (repeat split).
  assert (Hc : finishedWith 90 4000 (finishedPlayer "C" 90 4000)) by (repeat split).
  assert (Hp : filter (fun p => Player.status p = Finished) scenarioPlayers
               ≡ₚ [finishedPlayer "A" 100 5000; finishedPlayer "B" 100 6000;
                    finishedPlayer "C" 90 4000]) by apply perm_swap.
  split; [exact Ha |]. split; [exact Hb |]. split; [exact Hc |]. split; [exact Hp |].
  destruct (winners_top3_of_finished scenarioPlayers) as (Hw & _ & _ & _ & _ & Hscen).
  rewrite Hw, (Hscen _ _ _ Ha Hb Hc Hp). reflexivity.
Defined.

Lemma no_finished_no_notification_witness :
  (forall p, p ∈ players joinedState -> Player.status p <> Finished)
  /\ Server.emitted (checkAndNotifyWinners joinedState) = Server.emitted joinedState.
Proof.
  assert (H : forall p, p ∈ players joinedState -> Player.status p <> Finished).
  { intros p Hp. change (players joinedState) with [alice] in Hp.
    apply list_elem_of_singleton in Hp as ->. discriminate. }
  split; [exact H |].
  apply (no_finished_no_notification joinedState H).
Defined.

(** ** Player objects stay well formed *)

Lemma getPlayer_Some st sid r p :
  getPlayer st sid = Some (r, p) ->
  registry_lookup sid (Server.activePlayers st) = Some r /\ Server.heap st !! r = Some p.
Proof.
  unfold getPlayer. destruct (registry_lookup _ _) as [r' |]; [| done].
  destruct (Server.heap st !! r') as [p' |] eqn:E; [| done].
  by intros [= -> ->].
Qed.

Lemma getPlayer_ok st sid r p : heap_ok st -> getPlayer st sid = Some (r, p) -> player_ok p.
Proof.
  intros Hok [_ Hp]%getPlayer_Some. by eapply Forall_lookup_1.
Qed.

Lemma heap_ok_setPlayer r p st : heap_ok st -> player_ok p -> heap_ok (setPlayer r p st).
Proof. intros. by apply Forall_insert. Qed.

Lemma heap_ok_setPlayer_twice r p p' st :
  heap_ok st -> player_ok p -> heap_ok (setPlayer r p (setPlayer r p' st)).
Proof.
  intros. unfold heap_ok, setPlayer. cbn. rewrite list_insert_insert_eq.
  by apply Forall_insert.
Qed.

Lemma heap_ok_heap st st' : Server.heap st' = Server.heap st -> heap_ok st -> heap_ok st'.
Proof. unfold heap_ok. by intros ->. Qed.

Lemma clearTimerOf_heap p st : Server.heap (clearTimerOf p st) = Server.heap st.
Proof. unfold clearTimerOf. by destruct (Player.timer p). Qed.

Lemma broadcastLeaderboard_heap st : Server.heap (broadcastLeaderboard st) = Server.heap st.
Proof. done. Qed.

Lemma checkAndNotifyWinners_heap st : Server.heap (checkAndNotifyWinners st) = Server.heap st.
Proof. unfold checkAndNotifyWinners. by destruct (0 <? _)%nat. Qed.

Lemma startQuestionTimer_ok sid now st : heap_ok st -> heap_ok (startQuestionTimer sid now st).
Proof.
  intros Hok. unfold startQuestionTimer.
  destruct (getPlayer st sid) as [[r p] |] eqn:Hg; [| done].
  destruct (Player.finished p); [done |].
  assert (Hok' : heap_ok (clearTimerOf p st))
    by (eapply heap_ok_heap; [apply clearTimerOf_heap | done]).
  destruct (negb _); [done |].
  apply heap_ok_setPlayer; [exact Hok' |].
  by apply (getPlayer_ok _ _ _ _ Hok) in Hg.
Qed.

Lemma moveToNextQuestion_ok sid now st : heap_ok st -> heap_ok (moveToNextQuestion sid now st).
Proof.
  intros Hok. unfold moveToNextQuestion.
  destruct (getPlayer st sid) as [[r p] |] eqn:Hg; [| done].
  pose proof (getPlayer_ok _ _ _ _ Hok Hg) as (Hidx & Hlen & Hfin).
  assert (Hok' : heap_ok (clearTimerOf p st))
    by (eapply heap_ok_heap; [apply clearTimerOf_heap | done]).
  set (p1 := match Player.timer p with Some _ => Player.set_timer None p | None => p end).
  assert (Hp1 : Player.questionIndex p1 = Player.questionIndex p
                /\ Player.questionSet p1 = Player.questionSet p
                /\ Player.status p1 = Player.status p)
    by (subst p1; by destruct (Player.timer p)).
  destruct Hp1 as (Hi1 & Hq1 & Hs1).
  cbn [Player.questionIndex Player.set_questionIndex].
  destruct (Player.questionIndex p1 + 1 <? MAX_QUESTIONS) eqn:Hlt.
  - apply Z.ltb_lt in Hlt.
    eapply heap_ok_heap; [apply broadcastLeaderboard_heap |].
    apply startQuestionTimer_ok.
    apply (heap_ok_setPlayer r _ (clearTimerOf p st) Hok').
    unfold player_ok. cbn. rewrite Hi1, Hq1, Hs1 in *.
    split; [lia |]. split; [done |]. split; [intros H; apply Hfin in H; lia | lia].
  - apply Z.ltb_ge in Hlt.
    eapply heap_ok_heap; [apply checkAndNotifyWinners_heap |].
    eapply heap_ok_heap; [apply broadcastLeaderboard_heap |].
    apply (heap_ok_setPlayer_twice r _ _ (clearTimerOf p st) Hok').
    unfold player_ok. cbn. rewrite Hi1, Hq1 in *.
    split; [lia |]. split; [done |]. done.
Qed.

Lemma intervalCallback_ok h st : heap_ok st -> heap_ok (intervalCallback h st).
Proof.
  intros Hok. unfold intervalCallback.
  destruct (list_find _ _) as [[k iv] |]; [| done].
  destruct (_ <=? 0); [| done]. cbn.
  destruct (Server.heap st !! Interval.player iv) as [p |] eqn:Hp; [| done].
  assert (Hok' : heap_ok (setPlayer (Interval.player iv) (Player.set_timer None p) st)).
  { apply heap_ok_setPlayer; [done |]. by eapply (Forall_lookup_1 _ _ _ _ Hok) in Hp. }
  destruct (currentQuestion _); (eapply heap_ok_heap; [| exact Hok']);
    cbn; by rewrite clearTimerOf_heap.
Qed.

Lemma length_generateQuestionSet clock draws :
  length (generateQuestionSet clock draws) = Z.to_nat MAX_QUESTIONS.
Proof. unfold generateQuestionSet. by rewrite length_map, length_seq. Qed.

Lemma joinGame_ok sid playerName env st : heap_ok st -> heap_ok (joinGame sid playerName env st).
Proof.
  intros Hok. unfold joinGame.
  eapply heap_ok_heap; [apply checkAndNotifyWinners_heap |].
  eapply heap_ok_heap; [apply broadcastLeaderboard_heap |].
  apply startQuestionTimer_ok.
  unfold heap_ok. cbn. apply Forall_app_2; [done |].
  constructor; [| done]. unfold player_ok. cbn.
  rewrite length_generateQuestionSet. repeat split; try done; unfold MAX_QUESTIONS; lia.
Qed.

Lemma submitAnswer_try_ok sid r p data st st' :
  heap_ok st -> player_ok p -> submitAnswer_try sid r p data st = Some st' -> heap_ok st'.
Proof.
  intros Hok Hp. unfold submitAnswer_try.
  destruct data as [d |]; [| done].
  destruct (parseInt _) as [n |], (currentQuestion p) as [q |]; try done.
  - set (p1 := match Player.timer p with Some _ => Player.set_timer None p | None => p end).
    assert (Hp1 : player_ok p1) by (subst p1; by destruct (Player.timer p)).
    assert (Hok1 : heap_ok (setPlayer r p1 (clearTimerOf p st))).
    { apply heap_ok_setPlayer; [| done].
      eapply heap_ok_heap; [apply clearTimerOf_heap | done]. }
    destruct (_ && _); intros [= <-]; [| done].
    by apply (heap_ok_setPlayer r _ _ Hok1).
  - by intros [= <-].
Qed.

Lemma submitAnswer_ok sid data st : heap_ok st -> heap_ok (submitAnswer sid data st).
Proof.
  intros Hok. unfold submitAnswer.
  destruct (getPlayer st sid) as [[r p] |] eqn:Hg; [| done].
  destruct (Player.finished p); [done |].
  destruct (submitAnswer_try _ _ _ _ _) eqn:Ht; [| done].
  eapply submitAnswer_try_ok; [done | | done]. by eapply getPlayer_ok.
Qed.

Lemma disconnect_heap sid st : Server.heap (disconnect sid st) = Server.heap st.
Proof.
  unfold disconnect. rewrite checkAndNotifyWinners_heap. cbn.
  destruct (getPlayer st sid) as [[r p] |]; [apply clearTimerOf_heap | done].
Qed.

Lemma step_ok i st st' : heap_ok st -> step i st = Some st' -> heap_ok st'.
Proof.
  intros Hok. unfold step. destruct (Server.crashed st); [done |].
  destruct i as [sid | sid nm env | sid data | sid | h | k now].
  - case_bool_decide; [done |]. by intros [= <-].
  - destruct (_ && _); [| done]. intros [= <-]. by apply joinGame_ok.
  - case_bool_decide; [| done]. intros [= <-]. by apply submitAnswer_ok.
  - case_bool_decide; [| done]. intros [= <-].
    eapply heap_ok_heap; [apply disconnect_heap | done].
  - destruct (list_find _ _); [| done]. intros [= <-]. by apply intervalCallback_ok.
  - destruct (Server.timeouts st !! k) as [[d sid] |]; [| done].
    intros [= <-]. by apply moveToNextQuestion_ok.
Qed.

Lemma run_ok tr : forall st st', heap_ok st -> run tr st = Some st' -> heap_ok st'.
Proof.
  induction tr as [| i tr IH]; intros st st' Hok; cbn.
  - by intros [= <-].
  - destruct (step i st) as [st1 |] eqn:Hs; [| done].
    apply IH. by eapply step_ok.
Qed.

(** In every state the server can reach, each player object has an index
    that is not negative, ten questions, and is finished exactly when its
    index has reached [MAX_QUESTIONS]. *)
Lemma reachable_ok st : reachable st -> heap_ok st.
Proof. intros [tr Hrun]. eapply run_ok; [| exact Hrun]. constructor. Qed.

Lemma in_progress_has_question p :
  player_ok p -> Player.status p = InProgress -> is_Some (currentQuestion p).
Proof.
  intros (Hidx & Hlen & Hfin) Hs. unfold currentQuestion, index.
  destruct (_ <? 0) eqn:Hneg; [apply Z.ltb_lt in Hneg; lia |].
  apply lookup_lt_is_Some. rewrite Hlen.
  assert (~ MAX_QUESTIONS <= Player.questionIndex p) by (rewrite <- Hfin; congruence).
  unfold MAX_QUESTIONS in *. lia.
Qed.

(** ** Progress is one-way *)

Lemma player_advances_refl p : player_advances p p.
Proof. split; [lia | done]. Qed.

Lemma heap_advances_refl h : heap_advances h h.
Proof. intros r p Hp. exists p. split; [done | apply player_advances_refl]. Qed.

Lemma heap_advances_eq h h' : h' = h -> heap_advances h h'.
Proof. intros ->. apply heap_advances_refl. Qed.

Lemma heap_advances_trans h1 h2 h3 :
  heap_advances h1 h2 -> heap_advances h2 h3 -> heap_advances h1 h3.
Proof.
  intros H12 H23 r p Hp.
  destruct (H12 r p Hp) as (p2 & Hp2 & [Hi2 Hs2]).
  destruct (H23 r p2 Hp2) as (p3 & Hp3 & [Hi3 Hs3]).
  exists p3. split; [done |]. split; [lia | auto].
Qed.

Lemma heap_advances_insert h r p p' :
  h !! r = Some p -> player_advances p p' -> heap_advances h (<[r := p']> h).
Proof.
  intros Hr Hadv r0 p0 Hp0. destruct (decide (r0 = r)) as [-> | Hne].
  - exists p'. split; [apply list_lookup_insert_eq; by eapply lookup_lt_Some |].
    congruence.
  - exists p0. rewrite list_lookup_insert_ne by done.
    split; [done | apply player_advances_refl].
Qed.

Lemma startQuestionTimer_advances sid now st :
  heap_advances (Server.heap st) (Server.heap (startQuestionTimer sid now st)).
Proof.
  unfold startQuestionTimer.
  destruct (getPlayer st sid) as [[r p] |] eqn:Hg; [| apply heap_advances_refl].
  destruct (Player.finished p); [apply heap_advances_refl |].
  destruct (negb _); [apply heap_advances_eq, clearTimerOf_heap |].
  cbn. rewrite clearTimerOf_heap.
  apply getPlayer_Some in Hg as [_ Hr].
  eapply heap_advances_insert; [done |]. split; cbn; [lia | done].
Qed.

Lemma moveToNextQuestion_advances sid now st :
  heap_advances (Server.heap st) (Server.heap (moveToNextQuestion sid now st)).
Proof.
  unfold moveToNextQuestion.
  destruct (getPlayer st sid) as [[r p] |] eqn:Hg; [| apply heap_advances_refl].
  apply getPlayer_Some in Hg as [_ Hr].
  set (p1 := match Player.timer p with Some _ => Player.set_timer None p | None => p end).
  assert (Hp1 : Player.questionIndex p1 = Player.questionIndex p
                /\ Player.status p1 = Player.status p)
    by (subst p1; by destruct (Player.timer p)).
  destruct Hp1 as [Hi1 Hs1].
  cbn [Player.questionIndex Player.set_questionIndex].
  destruct (_ <? MAX_QUESTIONS).
  - rewrite broadcastLeaderboard_heap.
    eapply heap_advances_trans; [| apply startQuestionTimer_advances].
    cbn. rewrite clearTimerOf_heap.
    eapply heap_advances_insert; [done |]. split; cbn; [lia | congruence].
  - rewrite checkAndNotifyWinners_heap, broadcastLeaderboard_heap. cbn.
    rewrite clearTimerOf_heap, list_insert_insert_eq.
    eapply heap_advances_insert; [done |]. split; cbn; [lia | done].
Qed.

Lemma intervalCallback_advances h st :
  heap_advances (Server.heap st) (Server.heap (intervalCallback h st)).
Proof.
  unfold intervalCallback.
  destruct (list_find _ _) as [[k iv] |]; [| apply heap_advances_refl].
  destruct (_ <=? 0); [| apply heap_advances_refl]. cbn.
  destruct (Server.heap st !! Interval.player iv) as [p |] eqn:Hp;
    [| apply heap_advances_refl].
  assert (H : heap_advances (Server.heap st)
                (<[Interval.player iv := Player.set_timer None p]> (Server.heap st)))
    by (eapply heap_advances_insert; [done | split; cbn; [lia | done]]).
  destruct (currentQuestion _); cbn; by rewrite clearTimerOf_heap.
Qed.

Lemma joinGame_advances sid playerName env st :
  heap_advances (Server.heap st) (Server.heap (joinGame sid playerName env st)).
Proof.
  unfold joinGame. rewrite checkAndNotifyWinners_heap, broadcastLeaderboard_heap.
  eapply heap_advances_trans; [| apply startQuestionTimer_advances]. cbn.
  intros r p Hp. exists p. split; [by apply lookup_app_l_Some | apply player_advances_refl].
Qed.

Lemma submitAnswer_advances sid data st :
  heap_advances (Server.heap st) (Server.heap (submitAnswer sid data st)).
Proof.
  unfold submitAnswer.
  destruct (getPlayer st sid) as [[r p] |] eqn:Hg; [| apply heap_advances_refl].
  apply getPlayer_Some in Hg as [_ Hr].
  destruct (Player.finished p); [apply heap_advances_refl |].
  unfold submitAnswer_try.
  destruct data as [d |]; [| apply heap_advances_refl].
  destruct (parseInt _) as [n |], (currentQuestion p) as [q |];
    try apply heap_advances_refl.
  set (p1 := match Player.timer p with Some _ => Player.set_timer None p | None => p end).
  assert (Hp1 : player_advances p p1)
    by (subst p1; destruct (Player.timer p); split; cbn; (lia || done)).
  destruct (_ && _); cbn; rewrite clearTimerOf_heap, ?list_insert_insert_eq;
    (eapply heap_advances_insert; [done |]); destruct Hp1; split; cbn; (lia || done).
Qed.

Lemma step_advances i st st' :
  step i st = Some st' -> heap_advances (Server.heap st) (Server.heap st').
Proof.
  unfold step. destruct (Server.crashed st); [done |].
  destruct i as [sid | sid nm env | sid data | sid | h | k now].
  - case_bool_decide; [done |]. intros [= <-]. apply heap_advances_refl.
  - destruct (_ && _); [| done]. intros [= <-]. apply joinGame_advances.
  - case_bool_decide; [| done]. intros [= <-]. apply submitAnswer_advances.
  - case_bool_decide; [| done]. intros [= <-]. apply heap_advances_eq.
    by rewrite disconnect_heap.
  - destruct (list_find _ _); [| done]. intros [= <-]. apply intervalCallback_advances.
  - destruct (Server.timeouts st !! k) as [[d sid] |]; [| done].
    intros [= <-].
    apply (moveToNextQuestion_advances sid now
             (Server.set_timeouts (delete k (Server.timeouts st)) st)).
Qed.

(** Over any run, no player object is lost, no index decreases, and no
    finished player runs again. *)
Lemma run_advances tr :
  forall st st', run tr st = Some st' -> heap_advances (Server.heap st) (Server.heap st').
Proof.
  induction tr as [| i tr IH]; intros st st'; cbn.
  - intros [= <-]. apply heap_advances_refl.
  - destruct (step i st) as [st1 |] eqn:Hs; [| done]. intros Hrun.
    eapply heap_advances_trans; [by eapply step_advances | by apply IH].
Qed.

(** The part of the index invariant that the code keeps: in every
    reachable state an index is at least 0, and it has reached
    [MAX_QUESTIONS] exactly when the session is finished. *)
Lemma reachable_index st sid r p :
  reachable st -> getPlayer st sid = Some (r, p) ->
  0 <= Player.questionIndex p
  /\ (MAX_QUESTIONS <= Player.questionIndex p <-> Player.status p = Finished).
Proof.
  intros Hreach Hg.
  destruct (getPlayer_ok _ _ _ _ (reachable_ok _ Hreach) Hg) as (H0 & _ & Hfin).
  split; [done | by symmetry].
Qed.

(** With the guard the specification asks for, an advance never takes an
    index past [MAX_QUESTIONS]: a session that is still running is below
    it. *)
Lemma advance_of_running_session_bounded st sid r p now :
  reachable st -> getPlayer st sid = Some (r, p) -> Player.status p = InProgress ->
  exists p',
    Server.heap (moveToNextQuestion sid now st) !! r = Some p'
    /\ Player.questionIndex p' = Player.questionIndex p + 1
    /\ Player.questionIndex p' <= MAX_QUESTIONS.
Proof.
  intros Hreach Hg Hs.
  destruct (getPlayer_ok _ _ _ _ (reachable_ok _ Hreach) Hg) as (H0 & _ & Hfin).
  assert (Hlt : Player.questionIndex p < MAX_QUESTIONS).
  { destruct (decide (MAX_QUESTIONS <= Player.questionIndex p)) as [Hge |]; [| lia].
    apply Hfin in Hge. congruence. }
  pose proof Hg as [_ Hr]%getPlayer_Some.
  pose proof (lookup_lt_Some _ _ _ Hr) as Hlen.
  unfold moveToNextQuestion. rewrite Hg.
  set (p1 := match Player.timer p with Some _ => Player.set_timer None p | None => p end).
  assert (Hp1 : Player.questionIndex p1 = Player.questionIndex p)
    by (subst p1; by destruct (Player.timer p)).
  cbn [Player.questionIndex Player.set_questionIndex].
  destruct (_ <? MAX_QUESTIONS) eqn:Hc.
  - rewrite broadcastLeaderboard_heap.
    set (p2 := Player.set_questionIndex (Player.questionIndex p1 + 1) p1).
    set (st2 := emit _ _ (setPlayer r p2 (clearTimerOf p st))).
    assert (Hr2 : Server.heap st2 !! r = Some p2).
    { subst st2. cbn. apply list_lookup_insert_eq. by rewrite clearTimerOf_heap. }
    destruct (startQuestionTimer_advances sid now st2 r p2 Hr2) as (p' & Hp' & _).
    exists p'. split; [done |].
    (* the timer fields are the only ones [startQuestionTimer] writes *)
    revert Hp'. unfold startQuestionTimer.
    destruct (getPlayer st2 sid) as [[r' q] |] eqn:Hg2;
      [| rewrite Hr2; intros [= <-]; cbn; lia].
    destruct (Player.finished q); [rewrite Hr2; intros [= <-]; cbn; lia |].
    destruct (negb _);
      [rewrite clearTimerOf_heap, Hr2; intros [= <-]; cbn; lia |].
    cbn. rewrite clearTimerOf_heap.
    apply getPlayer_Some in Hg2 as [_ Hq].
    destruct (decide (r' = r)) as [-> | Hne].
    + rewrite list_lookup_insert_eq by (by eapply lookup_lt_Some).
      intros [= <-]. rewrite Hr2 in Hq. injection Hq as <-. cbn. lia.
    + rewrite list_lookup_insert_ne, Hr2 by done. intros [= <-]. cbn. lia.
  - rewrite checkAndNotifyWinners_heap, broadcastLeaderboard_heap. cbn.
    rewrite list_insert_insert_eq, list_lookup_insert_eq by (by rewrite clearTimerOf_heap).
    eexists. split; [done |]. cbn. lia.
Qed.

(** ** Timers belong to running players *)

Lemma timers_ok_frame st st' :
  Server.heap st' = Server.heap st -> Server.intervals st' ⊆ Server.intervals st ->
  timers_ok st -> timers_ok st'.
Proof.
  intros Hh Hi Hok iv Hiv. rewrite Hh. apply Hok, Hi, Hiv.
Qed.

Lemma clearTimerOf_intervals p st :
  Server.intervals (clearTimerOf p st) ⊆ Server.intervals st.
Proof.
  unfold clearTimerOf. destruct (Player.timer p); [| done].
  intros iv. cbn. by intros [_ ?]%list_elem_of_filter.
Qed.

Lemma timers_ok_clear r p st :
  timers_ok st -> Server.heap st !! r = Some p ->
  timers_ok (clearTimerOf p st)
  /\ forall iv, iv ∈ Server.intervals (clearTimerOf p st) -> Interval.player iv <> r.
Proof.
  intros Hok Hr. split.
  - eapply timers_ok_frame; [apply clearTimerOf_heap | apply clearTimerOf_intervals | done].
  - intros iv Hiv Heq. subst r.
    destruct (Hok iv (clearTimerOf_intervals p st iv Hiv)) as (p' & Hp' & Ht & _).
    rewrite Hr in Hp'. injection Hp' as <-.
    unfold clearTimerOf in Hiv. rewrite Ht in Hiv. cbn in Hiv.
    by apply list_elem_of_filter in Hiv as [? _].
Qed.

Lemma timers_ok_setPlayer_free r p' st :
  timers_ok st -> (forall iv, iv ∈ Server.intervals st -> Interval.player iv <> r) ->
  timers_ok (setPlayer r p' st).
Proof.
  intros Hok Hfree iv Hiv.
  change (Server.heap (setPlayer r p' st)) with (<[r := p']> (Server.heap st)).
  rewrite list_lookup_insert_ne by (intros Heq; by eapply Hfree). by apply Hok.
Qed.

Lemma timers_ok_setPlayer_same r p p' st :
  Server.heap st !! r = Some p ->
  Player.timer p' = Player.timer p -> Player.status p' = Player.status p ->
  timers_ok st -> timers_ok (setPlayer r p' st).
Proof.
  intros Hr Ht Hs Hok iv Hiv.
  change (Server.heap (setPlayer r p' st)) with (<[r := p']> (Server.heap st)).
  destruct (Hok iv Hiv) as (q & Hq & Htq & Hsq).
  destruct (decide (Interval.player iv = r)) as [Heq | Hne].
  - rewrite Heq in *. rewrite list_lookup_insert_eq by (by eapply lookup_lt_Some).
    rewrite Hr in Hq. injection Hq as <-. exists p'. by rewrite Ht, Hs.
  - rewrite list_lookup_insert_ne by done. eauto.
Qed.

Lemma startQuestionTimer_timers sid now st :
  timers_ok st -> timers_ok (startQuestionTimer sid now st).
Proof.
  intros Hok. unfold startQuestionTimer.
  destruct (getPlayer st sid) as [[r p] |] eqn:Hg; [| done].
  destruct (Player.finished p) eqn:Hfin; [done |].
  apply getPlayer_Some in Hg as [_ Hr].
  destruct (timers_ok_clear r p st Hok Hr) as [Hok1 Hfree].
  destruct (negb _); [done |].
  intros iv Hiv. cbn in Hiv. apply elem_of_app in Hiv as [Hiv | Hiv].
  - cbn. rewrite list_lookup_insert_ne by (intros Heq; by eapply Hfree).
    by apply Hok1.
  - apply list_elem_of_singleton in Hiv as ->. cbn.
    rewrite list_lookup_insert_eq
      by (rewrite clearTimerOf_heap; by eapply lookup_lt_Some).
    eexists. split; [done |]. split; [done |]. cbn.
    unfold Player.finished in Hfin. destruct (Player.status p); [done |].
    by rewrite bool_decide_eq_true_2 in Hfin.
Qed.

(** Events and timeouts do not matter to the timers. *)
Ltac skip_log :=
  repeat match goal with
    | |- timers_ok (setTimeout _ _ ?s) => change (timers_ok s)
    | |- timers_ok (emit _ _ ?s) => change (timers_ok s)
    | |- timers_ok (broadcastLeaderboard ?s) => change (timers_ok s)
    end.

Lemma checkAndNotifyWinners_timers st : timers_ok st -> timers_ok (checkAndNotifyWinners st).
Proof. unfold checkAndNotifyWinners. by destruct (0 <? _)%nat. Qed.

Lemma moveToNextQuestion_timers sid now st :
  timers_ok st -> timers_ok (moveToNextQuestion sid now st).
Proof.
  intros Hok. unfold moveToNextQuestion.
  destruct (getPlayer st sid) as [[r p] |] eqn:Hg; [| done].
  apply getPlayer_Some in Hg as [_ Hr].
  destruct (timers_ok_clear r p st Hok Hr) as [Hok1 Hfree].
  destruct (_ <? MAX_QUESTIONS).
  - skip_log. apply startQuestionTimer_timers.
    skip_log. by apply timers_ok_setPlayer_free.
  - apply checkAndNotifyWinners_timers. skip_log.
    apply timers_ok_setPlayer_free; [by apply timers_ok_setPlayer_free | done].
Qed.

Lemma joinGame_timers sid playerName env st :
  timers_ok st -> timers_ok (joinGame sid playerName env st).
Proof.
  intros Hok. unfold joinGame.
  apply checkAndNotifyWinners_timers. skip_log. apply startQuestionTimer_timers.
  intros iv Hiv. cbn in *. destruct (Hok iv Hiv) as (p & Hp & ?).
  exists p. split; [by apply lookup_app_l_Some | done].
Qed.

Lemma submitAnswer_timers sid data st :
  timers_ok st -> timers_ok (submitAnswer sid data st).
Proof.
  intros Hok. unfold submitAnswer.
  destruct (getPlayer st sid) as [[r p] |] eqn:Hg; [| done].
  apply getPlayer_Some in Hg as [_ Hr].
  destruct (Player.finished p); [done |].
  unfold submitAnswer_try.
  destruct data as [d |]; [| done].
  destruct (parseInt _) as [n |], (currentQuestion p) as [q |]; try done.
  destruct (timers_ok_clear r p st Hok Hr) as [Hok1 Hfree].
  destruct (_ && _).
  - skip_log.
    apply timers_ok_setPlayer_free; [by apply timers_ok_setPlayer_free | done].
  - skip_log. by apply timers_ok_setPlayer_free.
Qed.

Lemma disconnect_timers sid st : timers_ok st -> timers_ok (disconnect sid st).
Proof.
  intros Hok. unfold disconnect.
  apply checkAndNotifyWinners_timers. skip_log.
  destruct (getPlayer st sid) as [[r p] |] eqn:Hg; [| done].
  apply getPlayer_Some in Hg as [_ Hr].
  by destruct (timers_ok_clear r p st Hok Hr) as [Hok1 _].
Qed.

Lemma list_find_handle h ivs k iv :
  list_find (fun iv => Interval.handle iv = h) ivs = Some (k, iv) ->
  ivs !! k = Some iv /\ Interval.handle iv = h.
Proof. by intros (? & ? & _)%list_find_Some. Qed.

(** A tick keeps the invariants, and the question it reads is there. *)
Lemma intervalCallback_timers h st :
  heap_ok st -> timers_ok st ->
  timers_ok (intervalCallback h st)
  /\ Server.crashed (intervalCallback h st) = Server.crashed st.
Proof.
  intros Hheap Hok. unfold intervalCallback.
  destruct (list_find _ _) as [[k iv] |] eqn:Hf; [| done].
  apply list_find_handle in Hf as [Hk Hh].
  set (iv' := Interval.mk h (Interval.player iv) (Interval.socket iv) (Interval.timeLeft iv - 1)).
  set (st1 := emit _ _ (Server.set_intervals (<[k := iv']> (Server.intervals st)) st)).
  assert (Hok1 : timers_ok st1).
  { intros iv0 Hiv0. subst st1. cbn in *.
    apply list_elem_of_lookup in Hiv0 as [j Hj].
    destruct (decide (j = k)) as [-> | Hne].
    - rewrite list_lookup_insert_eq in Hj by (by eapply lookup_lt_Some).
      injection Hj as <-. cbn. rewrite <- Hh.
      apply Hok. by eapply list_elem_of_lookup_2.
    - rewrite list_lookup_insert_ne in Hj by done.
      apply Hok. by eapply list_elem_of_lookup_2. }
  destruct (_ <=? 0); [| done].
  change (Server.heap st1) with (Server.heap st). cbn [Interval.player iv'].
  destruct (Server.heap st !! Interval.player iv) as [p |] eqn:Hp; [| done].
  destruct (timers_ok_clear (Interval.player iv) p st1 Hok1 Hp) as [Hok2 Hfree].
  assert (Hok3 : timers_ok (setPlayer (Interval.player iv) (Player.set_timer None p)
                              (clearTimerOf p st1)))
    by (by apply timers_ok_setPlayer_free).
  destruct (Hok iv (list_elem_of_lookup_2 _ _ _ Hk)) as (p0 & Hp0 & _ & Hs).
  rewrite Hp in Hp0. injection Hp0 as <-.
  destruct (in_progress_has_question p) as [q Hq];
    [by eapply Forall_lookup_1 | done |].
  change (currentQuestion (Player.set_timer None p)) with (currentQuestion p).
  rewrite Hq. split; [done |]. unfold clearTimerOf. by destruct (Player.timer p).
Qed.

Lemma submitAnswer_crashed sid data st :
  Server.crashed (submitAnswer sid data st) = Server.crashed st.
Proof.
  unfold submitAnswer, submitAnswer_try.
  destruct (getPlayer st sid) as [[r p] |]; [| done].
  destruct (Player.finished p); [done |].
  destruct data as [d |]; [| done].
  destruct (parseInt _), (currentQuestion p); try done;
    try destruct (_ && _); cbn; unfold clearTimerOf; by destruct (Player.timer p).
Qed.

Lemma startQuestionTimer_crashed sid now st :
  Server.crashed (startQuestionTimer sid now st) = Server.crashed st.
Proof.
  unfold startQuestionTimer.
  destruct (getPlayer st sid) as [[r p] |]; [| done].
  destruct (Player.finished p); [done |].
  destruct (negb _); cbn; unfold clearTimerOf; by destruct (Player.timer p).
Qed.

Lemma checkAndNotifyWinners_crashed st :
  Server.crashed (checkAndNotifyWinners st) = Server.crashed st.
Proof. unfold checkAndNotifyWinners. by destruct (0 <? _)%nat. Qed.

Lemma moveToNextQuestion_crashed sid now st :
  Server.crashed (moveToNextQuestion sid now st) = Server.crashed st.
Proof.
  unfold moveToNextQuestion.
  destruct (getPlayer st sid) as [[r p] |]; [| done].
  destruct (_ <? MAX_QUESTIONS).
  - cbn. rewrite startQuestionTimer_crashed. cbn.
    unfold clearTimerOf. by destruct (Player.timer p).
  - rewrite checkAndNotifyWinners_crashed. cbn.
    unfold clearTimerOf. by destruct (Player.timer p).
Qed.

Lemma joinGame_crashed sid playerName env st :
  Server.crashed (joinGame sid playerName env st) = Server.crashed st.
Proof.
  unfold joinGame. rewrite checkAndNotifyWinners_crashed. cbn.
  by rewrite startQuestionTimer_crashed.
Qed.

Lemma disconnect_crashed sid st :
  Server.crashed (disconnect sid st) = Server.crashed st.
Proof.
  unfold disconnect. rewrite checkAndNotifyWinners_crashed. cbn.
  destruct (getPlayer st sid) as [[r p] |]; [| done].
  unfold clearTimerOf. by destruct (Player.timer p).
Qed.

Lemma step_timers i st st' :
  heap_ok st -> timers_ok st -> step i st = Some st' ->
  timers_ok st' /\ Server.crashed st' = false.
Proof.
  intros Hheap Hok. unfold step. destruct (Server.crashed st) eqn:Hc; [done |].
  destruct i as [sid | sid nm env | sid data | sid | h | k now].
  - case_bool_decide; [done |]. intros [= <-]. by split.
  - destruct (_ && _); [| done]. intros [= <-].
    split; [by apply joinGame_timers | by rewrite joinGame_crashed].
  - case_bool_decide; [| done]. intros [= <-].
    split; [by apply submitAnswer_timers | by rewrite submitAnswer_crashed].
  - case_bool_decide; [| done]. intros [= <-].
    split; [by apply disconnect_timers | by rewrite disconnect_crashed].
  - destruct (list_find _ _); [| done]. intros [= <-].
    destruct (intervalCallback_timers h st Hheap Hok) as [? ->]. by split.
  - destruct (Server.timeouts st !! k) as [[d sid] |]; [| done]. intros [= <-].
    split; [by apply moveToNextQuestion_timers | by rewrite moveToNextQuestion_crashed].
Qed.

Lemma run_timers tr :
  forall st st', heap_ok st -> timers_ok st -> Server.crashed st = false ->
    run tr st = Some st' -> timers_ok st' /\ Server.crashed st' = false.
Proof.
  induction tr as [| i tr IH]; intros st st' Hheap Hok Hc; cbn.
  - by intros [= <-].
  - destruct (step i st) as [st1 |] eqn:Hs; [| done].
    destruct (step_timers i st st1 Hheap Hok Hs) as [Hok1 Hc1].
    apply IH; [by eapply step_ok | done | done].
Qed.

(** No run of the events of the model throws an error that nothing
    catches, and in every reachable state the live intervals belong to
    running players: a finished session has no timer. *)
Lemma reachable_timers st : reachable st -> timers_ok st /\ Server.crashed st = false.
Proof.
  intros [tr Hrun]. apply (run_timers tr Server.init st); [constructor | | done | exact Hrun].
  intros iv Hiv. by apply elem_of_nil in Hiv.
Qed.

(** ** Answer evaluation *)

Lemma reachable_joinedState : reachable joinedState.
Proof. exists joined. vm_compute. reflexivity. Qed.

Lemma strict_eq_true a b : strict_eq a b = true <-> a = b.
Proof. unfold strict_eq. apply bool_decide_eq_true. Qed.

Lemma finished_false p : Player.status p = InProgress -> Player.finished p = false.
Proof. intros H. unfold Player.finished. by rewrite H. Qed.

Lemma setPlayer_lookup r p st :
  (r < length (Server.heap st))%nat -> Server.heap (setPlayer r p st) !! r = Some p.
Proof. intros. by apply list_lookup_insert_eq. Qed.

Lemma clearTimerOf_emitted p st : Server.emitted (clearTimerOf p st) = Server.emitted st.
Proof. unfold clearTimerOf. by destruct (Player.timer p). Qed.

Lemma clearTimerOf_timeouts p st : Server.timeouts (clearTimerOf p st) = Server.timeouts st.
Proof. unfold clearTimerOf. by destruct (Player.timer p). Qed.

(** C9: a submission to a running session whose answer is not a number
    gets the feedback [Invalid Input.] with the correct answer, schedules
    the advance after 2000 ms, and throws nothing: the [try] block ends
    normally and the process lives on. *)
Theorem invalid_input_feedback st sid r p d :
  reachable st ->
  getPlayer st sid = Some (r, p) ->
  Player.status p = InProgress ->
  parseInt (Data.answer d) = None ->
  exists q,
    currentQuestion p = Some q
    /\ submitAnswer_try sid r p (Some d) st = Some (submitAnswer sid (Some d) st)
    /\ Server.emitted (submitAnswer sid (Some d) st)
       = Server.emitted st
         ++ [(Unicast sid,
              AnswerFeedback
                (Feedback.mk false (Some "Invalid Input.") (Some (Question.answer q))))]
    /\ Server.timeouts (submitAnswer sid (Some d) st) = Server.timeouts st ++ [(2000, sid)]
    /\ Server.heap (submitAnswer sid (Some d) st) = Server.heap st
    /\ Server.crashed (submitAnswer sid (Some d) st) = false.
Proof.
  intros Hreach Hg Hs Hnan.
  destruct (reachable_timers _ Hreach) as [_ Hlive].
  pose proof (getPlayer_ok _ _ _ _ (reachable_ok _ Hreach) Hg) as Hok.
  destruct (in_progress_has_question p Hok Hs) as [q Hq].
  exists q. split; [done |].
  unfold submitAnswer. rewrite Hg, (finished_false p Hs).
  unfold submitAnswer_try. rewrite Hnan, Hq. done.
Qed.

(** A submission without a payload object cannot be read at all: the
    [TypeError] is caught, the feedback is [Server Error.] and the advance
    is scheduled after 3000 ms. *)
Lemma submitAnswer_without_payload st sid r p :
  getPlayer st sid = Some (r, p) ->
  Player.status p = InProgress ->
  submitAnswer sid None st
  = setTimeout 3000 sid
      (emit (Unicast sid)
         (AnswerFeedback
            (Feedback.mk false (Some "Server Error.")
               (Question.answer <$> currentQuestion p))) st).
Proof.
  intros Hg Hs. unfold submitAnswer. by rewrite Hg, (finished_false p Hs).
Qed.

Lemma invalid_input_feedback_witness :
  reachable joinedState
  /\ getPlayer joinedState "s1" = Some (O, alice)
  /\ Player.status alice = InProgress
  /\ parseInt (JStr "abc") = None
  /\ Server.timeouts (submitAnswer "s1" notANumber joinedState) = [(2000, "s1")].
Proof.
  assert (Hg : getPlayer joinedState "s1" = Some (O, alice)) by (vm_compute; reflexivity).
  assert (Hn : parseInt (JStr "abc") = None) by (vm_compute; reflexivity).
  split; [exact reachable_joinedState |]. split; [exact Hg |].
  split; [reflexivity |]. split; [exact Hn |].
  destruct (invalid_input_feedback joinedState "s1" O alice
              (Data.mk JUndefined (JStr "abc")) reachable_joinedState Hg eq_refl Hn)
    as (q & _ & _ & _ & Ht & _).
  exact Ht.
Defined.



(** ** The timer during a submission *)

(** Under the conditions of an invalid submission the handler returns
    before it reaches the timer: the intervals are as they were. *)
Lemma invalid_input_keeps_intervals st sid r p d :
  getPlayer st sid = Some (r, p) ->
  Player.status p = InProgress ->
  parseInt (Data.answer d) = None ->
  Server.intervals (submitAnswer sid (Some d) st) = Server.intervals st.
Proof.
  intros Hg Hs Hnan. unfold submitAnswer. rewrite Hg, (finished_false p Hs).
  unfold submitAnswer_try. rewrite Hnan. by destruct (currentQuestion p).
Qed.

(** A submission that parses does stop the timer of the player. *)
Lemma parsed_answer_clears_timer st sid r p d n h :
  getPlayer st sid = Some (r, p) ->
  Player.status p = InProgress ->
  is_Some (currentQuestion p) ->
  parseInt (Data.answer d) = Some n ->
  Player.timer p = Some h ->
  Forall (fun iv => Interval.handle iv <> h)
    (Server.intervals (submitAnswer sid (Some d) st)).
Proof.
  intros Hg Hs [q Hq] Hn Ht. unfold submitAnswer. rewrite Hg, (finished_false p Hs).
  unfold submitAnswer_try. rewrite Hn, Hq.
  assert (H : Forall (fun iv => Interval.handle iv <> h)
                (Server.intervals (clearTimerOf p st))).
  { unfold clearTimerOf. rewrite Ht. cbn. apply Forall_forall.
    by intros iv [? _]%list_elem_of_filter. }
  by destruct (_ && _).
Qed.

(** C2, evaluated: Alice has joined and her timer runs; she submits
    ["abc"].  The feedback goes out and the advance is scheduled, and the
    interval is still there, still her timer, and can tick. *)
Theorem invalid_input_leaves_timer_running :
  run joined Server.init = Some joinedState
  /\ Server.intervals joinedState = [Interval.mk O O "s1" 60]
  /\ step (SubmitAnswer "s1" notANumber) joinedState
     = Some (submitAnswer "s1" notANumber joinedState)
  /\ Server.timeouts (submitAnswer "s1" notANumber joinedState) = [(2000, "s1")]
  /\ Server.intervals (submitAnswer "s1" notANumber joinedState) = [Interval.mk O O "s1" 60]
  /\ getPlayer (submitAnswer "s1" notANumber joinedState) "s1" = Some (O, alice)
  /\ Player.timer alice = Some O
  /\ is_Some (step (IntervalFires O) (submitAnswer "s1" notANumber joinedState)).
Proof. vm_compute. repeat split; eauto. Qed.

(** ** The payload of newQuestion *)

Lemma newQuestionPayload_answer q i :
  getProp "answer" (newQuestionPayload (Some q) i) = Some (JNum (Question.answer q)).
Proof. reflexivity. Qed.

(** C1, evaluated: the payload of [newQuestion] is the whole question
    object, so it has the property [answer]; so it is for the first
    question sent on join and for the next one sent on advance. *)
Theorem newQuestion_payload_has_answer :
  (forall q i,
      getProp "answer" (newQuestionPayload (Some q) i) = Some (JNum (Question.answer q)))
  /\ run joined Server.init = Some joinedState
  /\ Server.emitted joinedState !! 2%nat
     = Some (Unicast "s1",
             NewQuestion
               [("id", JNum 1700000000000); ("text", JStr "2X + 3 = 5");
                ("answer", JNum 1); ("points", JNum 10);
                ("index", JNum 1); ("total", JNum 10)])
  /\ run (joined ++ round) Server.init = Some secondQuestionState
  /\ Server.emitted secondQuestionState !! 7%nat
     = Some (Unicast "s1",
             NewQuestion
               [("id", JNum 1700000000001); ("text", JStr "2X + 3 = 7");
                ("answer", JNum 2); ("points", JNum 10);
                ("index", JNum 2); ("total", JNum 10)]).
Proof. split; [exact newQuestionPayload_answer |]. vm_compute. done. Qed.

(** ** Advancing a session *)

(** [moveToNextQuestion] leaves the state alone when the player is gone. *)
Lemma moveToNextQuestion_absent st sid now :
  getPlayer st sid = None -> moveToNextQuestion sid now st = st.
Proof. intros H. unfold moveToNextQuestion. by rewrite H. Qed.

(** A disconnected player is gone from the registry, so an advance that
    was pending for it does nothing. *)
Lemma registry_lookup_delete sid reg : registry_lookup sid (registry_delete sid reg) = None.
Proof.
  unfold registry_delete. induction reg as [| [k r] reg IH]; [done |].
  rewrite filter_cons. cbn. case_decide as Hk; [| done].
  cbn. by rewrite bool_decide_eq_false_2.
Qed.

Lemma checkAndNotifyWinners_activePlayers st :
  Server.activePlayers (checkAndNotifyWinners st) = Server.activePlayers st.
Proof. unfold checkAndNotifyWinners. by destruct (0 <? _)%nat. Qed.

Lemma advance_after_disconnect sid now st :
  moveToNextQuestion sid now (disconnect sid st) = disconnect sid st.
Proof.
  apply moveToNextQuestion_absent. unfold getPlayer, disconnect.
  rewrite checkAndNotifyWinners_activePlayers. cbn.
  by rewrite registry_lookup_delete.
Qed.

(** C3, evaluated: Alice's game is over (index 10, 50000 ms) and one more
    advance is pending from her second submission on question 10.  When
    it fires, her index becomes 11, her time is taken again, and
    [gameOver], the leaderboard and the winners go out once more. *)
Theorem advance_on_finished_session_acts :
  run finishedWithPendingAdvance Server.init = Some finishedState
  /\ Server.timeouts finishedState = [(2000, "s1")]
  /\ progressOf finishedState "s1" = Some (Finished, 10, 50000)
  /\ progressOf (moveToNextQuestion "s1" 1700000051000 finishedState) "s1"
     = Some (Finished, 11, 51000)
  /\ Server.emitted (moveToNextQuestion "s1" 1700000051000 finishedState)
     = Server.emitted finishedState
       ++ [(Unicast "s1", GameOver 0 "00:51.00");
           (Broadcast,
            UpdateLeaderboard
              [Entry.mk "s1" (JStr "Alice") 0 "Finished (00:51.00)" (Some 51000)]);
           (Broadcast, PlayerCount 1);
           (Broadcast, WinnerNotification [Winner.mk (JStr "Alice") 0 "00:51.00"])].
Proof. vm_compute. done. Qed.

(** C4, evaluated: after that run the index of Alice's session is 11,
    above [MAX_QUESTIONS]. *)
Theorem questionIndex_exceeds_MAX_QUESTIONS :
  run advanceAfterFinish Server.init = Some afterFinishState
  /\ progressOf afterFinishState "s1" = Some (Finished, 11, 51000)
  /\ MAX_QUESTIONS < 11.
Proof. vm_compute. done. Qed.

(** * Further properties *)

(** ** The question generator *)

Lemma map_fmap {A B} (f : A -> B) (l : list A) : map f l = f <$> l.
Proof. reflexivity. Qed.

Lemma generateQuestionSet_lookup clock draws i q :
  generateQuestionSet clock draws !! i = Some q ->
  (i < 10)%nat /\ q = makeQuestion (clock i) i (draws i).
Proof.
  unfold generateQuestionSet. rewrite map_fmap, list_lookup_fmap. intros H.
  destruct (seq 0 (Z.to_nat MAX_QUESTIONS) !! i) as [j |] eqn:Hj; [| done].
  apply lookup_seq in Hj as [Hj Hlt]. cbn in Hj. subst j.
  injection H as <-. split; [exact Hlt | done].
Qed.

Lemma possible_draw env i :
  JoinEnv.possible env = true -> (i < 10)%nat ->
  0 <= drawA (JoinEnv.draws env i) < 5
  /\ 0 <= drawB (JoinEnv.draws env i) < 10
  /\ 0 <= drawX (JoinEnv.draws env i) < 10.
Proof.
  unfold JoinEnv.possible. intros H Hi.
  apply andb_true_iff in H as [H _]. apply andb_true_iff in H as [H _].
  rewrite forallb_forall in H. specialize (H i).
  rewrite <- list_elem_of_In, elem_of_seq in H.
  change (Z.to_nat MAX_QUESTIONS) with 10%nat in H. specialize (H ltac:(lia)).
  cbv zeta in H. repeat (apply andb_true_iff in H as [H ?]). lia.
Qed.

(** X1: with the random draws in their ranges, the generator gives ten
    questions, each worth 10 points, with an answer between 1 and 10 that
    solves the equation its text shows: the text is [X + B = C] or
    [AX + B = C] for some A in 1..5 (2..5 in the second form) and B in
    1..10, with C = A * answer + B. *)
Theorem generateQuestionSet_questions env :
  JoinEnv.possible env = true ->
  length (generateQuestionSet (JoinEnv.clock env) (JoinEnv.draws env)) = 10%nat
  /\ Forall
       (fun q =>
          Question.points q = 10
          /\ 1 <= Question.answer q <= 10
          /\ exists A B,
               1 <= A <= 5 /\ 1 <= B <= 10
               /\ Question.text q
                  = if A =? 1
                    then "X + " +:+ toString B +:+ " = "
                         +:+ toString (A * Question.answer q + B)
                    else toString A +:+ "X + " +:+ toString B +:+ " = "
                         +:+ toString (A * Question.answer q + B))
       (generateQuestionSet (JoinEnv.clock env) (JoinEnv.draws env)).
Proof.
  intros Hp. split; [apply length_generateQuestionSet |].
  apply Forall_lookup. intros i q Hq.
  apply generateQuestionSet_lookup in Hq as [Hi ->].
  destruct (possible_draw env i Hp Hi) as (HA & HB & HX).
  cbn. split; [done |]. split; [lia |].
  exists (drawA (JoinEnv.draws env i) + 1), (drawB (JoinEnv.draws env i) + 1).
  split; [lia |]. split; [lia |]. done.
Qed.

Lemma generateQuestionSet_questions_witness :
  JoinEnv.possible env0 = true
  /\ length (generateQuestionSet (JoinEnv.clock env0) (JoinEnv.draws env0)) = 10%nat.
Proof.
  split; [reflexivity |].
  apply (generateQuestionSet_questions env0). reflexivity.
Defined.

(** X2: the id of the question in slot [i] is the clock reading of its
    iteration plus [i]; when the clock does not go back during the loop,
    the ids increase strictly, so no two questions of a set share one. *)
Theorem generateQuestionSet_ids clock draws :
  (forall i j, (i <= j)%nat -> clock i <= clock j) ->
  (forall i q, generateQuestionSet clock draws !! i = Some q ->
               Question.id q = clock i + Z.of_nat i)
  /\ (forall i j q q',
        generateQuestionSet clock draws !! i = Some q ->
        generateQuestionSet clock draws !! j = Some q' ->
        (i < j)%nat -> Question.id q < Question.id q')
  /\ NoDup (map Question.id (generateQuestionSet clock draws)).
Proof.
  intros Hmono.
  assert (Hid : forall i q, generateQuestionSet clock draws !! i = Some q ->
                            Question.id q = clock i + Z.of_nat i).
  { intros i q Hq. by apply generateQuestionSet_lookup in Hq as [_ ->]. }
  assert (Hlt : forall i j q q',
             generateQuestionSet clock draws !! i = Some q ->
             generateQuestionSet clock draws !! j = Some q' ->
             (i < j)%nat -> Question.id q < Question.id q').
  { intros i j q q' Hq Hq' Hij. rewrite (Hid i q Hq), (Hid j q' Hq').
    specialize (Hmono i j ltac:(lia)). lia. }
  split; [exact Hid |]. split; [exact Hlt |].
  rewrite map_fmap. apply NoDup_alt. intros i j x Hi Hj.
  rewrite list_lookup_fmap in Hi, Hj.
  destruct (generateQuestionSet clock draws !! i) as [q |] eqn:Hq; [| done].
  destruct (generateQuestionSet clock draws !! j) as [q' |] eqn:Hq'; [| done].
  cbn in Hi, Hj. injection Hi as <-. injection Hj as Heq.
  destruct (Nat.lt_trichotomy i j) as [Hc | [Hc | Hc]]; [| done |].
  - specialize (Hlt i j q q' Hq Hq' Hc). lia.
  - specialize (Hlt j i q' q Hq' Hq Hc). lia.
Qed.

Lemma generateQuestionSet_ids_witness :
  (forall i j, (i <= j)%nat -> JoinEnv.clock env0 i <= JoinEnv.clock env0 j)
  /\ NoDup (map Question.id (generateQuestionSet (JoinEnv.clock env0) (JoinEnv.draws env0))).
Proof.
  assert (H : forall i j, (i <= j)%nat -> JoinEnv.clock env0 i <= JoinEnv.clock env0 j)
    by (intros i j _; cbn; lia).
  split; [exact H |].
  apply (generateQuestionSet_ids (JoinEnv.clock env0) (JoinEnv.draws env0) H).
Defined.

(** ** Handles are issued once *)

Ltac skip_handles :=
  repeat match goal with
    | |- handles_ok (setTimeout _ _ ?s) => change (handles_ok s)
    | |- handles_ok (emit _ _ ?s) => change (handles_ok s)
    | |- handles_ok (setPlayer _ _ ?s) => change (handles_ok s)
    | |- handles_ok (broadcastLeaderboard ?s) => change (handles_ok s)
    | |- handles_ok (Server.set_heap _ ?s) => change (handles_ok s)
    | |- handles_ok (Server.set_activePlayers _ ?s) => change (handles_ok s)
    | |- handles_ok (Server.set_sockets _ ?s) => change (handles_ok s)
    | |- handles_ok (Server.set_timeouts _ ?s) => change (handles_ok s)
    | |- handles_ok (Server.set_crashed _ ?s) => change (handles_ok s)
    end.

Lemma clearInterval_handles h st : handles_ok st -> handles_ok (clearInterval h st).
Proof.
  intros [Hnd Hlt]. split; cbn.
  - rewrite map_fmap in *. eapply sublist_NoDup; [exact Hnd | apply fmap_sublist, sublist_filter].
  - apply Forall_forall. intros iv [_ Hiv]%list_elem_of_filter.
    by eapply Forall_forall in Hlt.
Qed.

Lemma clearTimerOf_handles p st : handles_ok st -> handles_ok (clearTimerOf p st).
Proof.
  unfold clearTimerOf. destruct (Player.timer p); [apply clearInterval_handles | done].
Qed.

Lemma clearTimerOf_nextHandle p st :
  Server.nextHandle (clearTimerOf p st) = Server.nextHandle st.
Proof. unfold clearTimerOf. by destruct (Player.timer p). Qed.

Lemma handles_ok_fresh st r sid t :
  handles_ok st ->
  handles_ok
    (Server.set_intervals
       (Server.intervals st ++ [Interval.mk (Server.nextHandle st) r sid t])
       (Server.set_nextHandle (S (Server.nextHandle st)) st)).
Proof.
  intros [Hnd Hlt]. split; cbn.
  - rewrite map_app. apply NoDup_app. split; [done |]. split; [| apply NoDup_singleton].
    intros h Hh Hin. cbn in Hin. apply list_elem_of_singleton in Hin as ->.
    rewrite map_fmap in Hh. apply list_elem_of_fmap in Hh as (iv & Heq & Hiv).
    eapply Forall_forall in Hlt; [| exact Hiv]. lia.
  - apply Forall_app. split.
    + eapply Forall_impl; [exact Hlt |]. cbn. lia.
    + constructor; [cbn; lia | constructor].
Qed.

Lemma startQuestionTimer_handles sid now st :
  handles_ok st -> handles_ok (startQuestionTimer sid now st).
Proof.
  intros Hok. unfold startQuestionTimer.
  destruct (getPlayer st sid) as [[r p] |]; [| done].
  destruct (Player.finished p); [done |].
  pose proof (clearTimerOf_handles p st Hok) as Hok1.
  destruct (negb _); [done |].
  skip_handles. by apply (handles_ok_fresh (clearTimerOf p st)).
Qed.

Lemma checkAndNotifyWinners_handles st : handles_ok st -> handles_ok (checkAndNotifyWinners st).
Proof. unfold checkAndNotifyWinners. by destruct (0 <? _)%nat. Qed.

Lemma moveToNextQuestion_handles sid now st :
  handles_ok st -> handles_ok (moveToNextQuestion sid now st).
Proof.
  intros Hok. unfold moveToNextQuestion.
  destruct (getPlayer st sid) as [[r p] |]; [| done].
  pose proof (clearTimerOf_handles p st Hok) as Hok1.
  destruct (_ <? MAX_QUESTIONS).
  - skip_handles. apply startQuestionTimer_handles. by skip_handles.
  - apply checkAndNotifyWinners_handles. by skip_handles.
Qed.

Lemma joinGame_handles sid playerName env st :
  handles_ok st -> handles_ok (joinGame sid playerName env st).
Proof.
  intros Hok. unfold joinGame.
  apply checkAndNotifyWinners_handles. skip_handles.
  apply startQuestionTimer_handles. by skip_handles.
Qed.

Lemma submitAnswer_handles sid data st :
  handles_ok st -> handles_ok (submitAnswer sid data st).
Proof.
  intros Hok. unfold submitAnswer.
  destruct (getPlayer st sid) as [[r p] |]; [| done].
  destruct (Player.finished p); [done |].
  unfold submitAnswer_try.
  destruct data as [d |]; [| done].
  destruct (parseInt _) as [n |], (currentQuestion p) as [q |]; try done.
  pose proof (clearTimerOf_handles p st Hok) as Hok1.
  destruct (_ && _); by skip_handles.
Qed.

Lemma disconnect_handles sid st : handles_ok st -> handles_ok (disconnect sid st).
Proof.
  intros Hok. unfold disconnect.
  apply checkAndNotifyWinners_handles. skip_handles.
  destruct (getPlayer st sid) as [[r p] |]; [by apply clearTimerOf_handles | done].
Qed.

Lemma handles_ok_tick k iv t st :
  Server.intervals st !! k = Some iv ->
  handles_ok st ->
  handles_ok
    (Server.set_intervals
       (<[k := Interval.mk (Interval.handle iv) (Interval.player iv) (Interval.socket iv) t]>
          (Server.intervals st)) st).
Proof.
  intros Hk [Hnd Hlt]. split; cbn.
  - rewrite map_fmap, list_fmap_insert. cbn.
    rewrite list_insert_id; [by rewrite <- map_fmap |].
    by rewrite list_lookup_fmap, Hk.
  - apply Forall_insert; [done |]. cbn. by eapply Forall_lookup_1 in Hlt.
Qed.

Lemma intervalCallback_handles h st : handles_ok st -> handles_ok (intervalCallback h st).
Proof.
  intros Hok. unfold intervalCallback.
  destruct (list_find _ _) as [[k iv] |] eqn:Hf; [| done].
  apply list_find_handle in Hf as [Hk <-].
  pose proof (handles_ok_tick k iv (Interval.timeLeft iv - 1) st Hk Hok) as Hok1.
  destruct (_ <=? 0); [| by skip_handles].
  cbn [Interval.player Interval.socket].
  destruct (Server.heap _ !! Interval.player iv) as [p |]; [| by skip_handles].
  destruct (currentQuestion _); skip_handles; apply clearTimerOf_handles; by skip_handles.
Qed.

Lemma step_handles i st st' : handles_ok st -> step i st = Some st' -> handles_ok st'.
Proof.
  intros Hok. unfold step. destruct (Server.crashed st); [done |].
  destruct i as [sid | sid nm env | sid data | sid | h | k now].
  - case_bool_decide; [done |]. by intros [= <-].
  - destruct (_ && _); [| done]. intros [= <-]. by apply joinGame_handles.
  - case_bool_decide; [| done]. intros [= <-]. by apply submitAnswer_handles.
  - case_bool_decide; [| done]. intros [= <-]. by apply disconnect_handles.
  - destruct (list_find _ _); [| done]. intros [= <-]. by apply intervalCallback_handles.
  - destruct (Server.timeouts st !! k) as [[d sid] |]; [| done].
    intros [= <-]. by apply moveToNextQuestion_handles.
Qed.

Lemma reachable_handles st : reachable st -> handles_ok st.
Proof.
  intros [tr Hrun]. revert Hrun.
  assert (H0 : handles_ok Server.init) by (split; constructor).
  revert H0. generalize Server.init. induction tr as [| i tr IH]; intros s Hs; cbn.
  - by intros [= <-].
  - destruct (step i s) as [s1 |] eqn:Hstep; [| done].
    apply IH. by eapply step_handles.
Qed.

(** A live interval is found by its handle. *)
Lemma list_find_interval st k iv :
  handles_ok st -> Server.intervals st !! k = Some iv ->
  list_find (fun iv' => Interval.handle iv' = Interval.handle iv) (Server.intervals st)
  = Some (k, iv).
Proof.
  intros [Hnd _] Hk. apply list_find_Some. split; [done |]. split; [done |].
  intros j iv' Hj Hlt Heq.
  rewrite map_fmap in Hnd.
  assert (j = k); [| lia].
  eapply NoDup_lookup; [exact Hnd | |].
  - rewrite list_lookup_fmap, Hj. cbn. by rewrite Heq.
  - by rewrite list_lookup_fmap, Hk.
Qed.

(** ** The countdown *)

Lemma reachable_lastSecondState : reachable lastSecondState.
Proof. exists (joined ++ replicate 59 (IntervalFires O)). vm_compute. reflexivity. Qed.

(** X3: in every reachable state a player object has at most one live
    interval, the one its [timer] field holds, and only while it is
    running: a finished player has none. *)
Theorem one_interval_per_player st i j iv1 iv2 :
  reachable st ->
  Server.intervals st !! i = Some iv1 ->
  Server.intervals st !! j = Some iv2 ->
  Interval.player iv1 = Interval.player iv2 ->
  i = j
  /\ exists p,
       Server.heap st !! Interval.player iv1 = Some p
       /\ Player.timer p = Some (Interval.handle iv1)
       /\ Player.status p = InProgress.
Proof.
  intros Hreach Hi Hj Hpl.
  destruct (reachable_timers st Hreach) as [Htm _].
  destruct (reachable_handles st Hreach) as [Hnd _].
  destruct (Htm iv1 (list_elem_of_lookup_2 _ _ _ Hi)) as (p1 & Hp1 & Ht1 & Hs1).
  destruct (Htm iv2 (list_elem_of_lookup_2 _ _ _ Hj)) as (p2 & Hp2 & Ht2 & _).
  rewrite <- Hpl, Hp1 in Hp2. injection Hp2 as <-.
  split; [| by exists p1].
  rewrite map_fmap in Hnd.
  eapply NoDup_lookup; [exact Hnd | |].
  - by rewrite list_lookup_fmap, Hi.
  - rewrite list_lookup_fmap, Hj. cbn. congruence.
Qed.

Lemma one_interval_per_player_witness :
  reachable joinedState
  /\ Server.intervals joinedState !! O = Some (Interval.mk O O "s1" 60)
  /\ O = O.
Proof.
  assert (Hi : Server.intervals joinedState !! O = Some (Interval.mk O O "s1" 60))
    by (vm_compute; reflexivity).
  split; [exact reachable_joinedState |]. split; [exact Hi |].
  exact (proj1 (one_interval_per_player joinedState O O _ _
                  reachable_joinedState Hi Hi eq_refl)).
Defined.

(** One tick of an interval with more than a second left. *)
Lemma intervalCallback_tick st k iv :
  handles_ok st ->
  Server.intervals st !! k = Some iv ->
  1 < Interval.timeLeft iv ->
  intervalCallback (Interval.handle iv) st
  = emit (Unicast (Interval.socket iv)) (UpdateTimer (Interval.timeLeft iv - 1))
      (Server.set_intervals
         (<[k := Interval.mk (Interval.handle iv) (Interval.player iv) (Interval.socket iv)
                   (Interval.timeLeft iv - 1)]> (Server.intervals st)) st).
Proof.
  intros Hok Hk Ht. unfold intervalCallback.
  rewrite (list_find_interval st k iv Hok Hk).
  cbn [Interval.socket Interval.player Interval.timeLeft].
  destruct (_ <=? 0) eqn:Hc; [apply Z.leb_le in Hc; lia | done].
Qed.

(** X4: an interval with [t] seconds left counts down: [n < t] ticks
    emit [updateTimer] with t-1, ..., t-n to its socket, leave it with
    [t - n] seconds, and touch nothing else. *)
Theorem timer_countdown n st k iv :
  reachable st ->
  Server.intervals st !! k = Some iv ->
  Z.of_nat n < Interval.timeLeft iv ->
  Nat.iter n (intervalCallback (Interval.handle iv)) st
  = Server.set_emitted
      (Server.emitted st
       ++ map (fun i => (Unicast (Interval.socket iv),
                         UpdateTimer (Interval.timeLeft iv - Z.of_nat i)))
            (seq 1 n))
      (Server.set_intervals
         (<[k := Interval.mk (Interval.handle iv) (Interval.player iv) (Interval.socket iv)
                   (Interval.timeLeft iv - Z.of_nat n)]> (Server.intervals st)) st).
Proof.
  intros Hreach Hk. pose proof (reachable_handles st Hreach) as Hok.
  induction n as [| n IH]; intros Hn.
  - cbn. rewrite app_nil_r, Z.sub_0_r.
    rewrite list_insert_id by (by destruct iv). by destruct st.
  - rewrite Nat.iter_succ, IH by lia.
    set (iv' := Interval.mk (Interval.handle iv) (Interval.player iv) (Interval.socket iv)
                  (Interval.timeLeft iv - Z.of_nat n)).
    set (st' := Server.set_emitted _ (Server.set_intervals _ st)).
    assert (Hk' : Server.intervals st' !! k = Some iv')
      by (apply list_lookup_insert_eq; by eapply lookup_lt_Some).
    assert (Hok' : handles_ok st')
      by (apply (handles_ok_tick k iv (Interval.timeLeft iv - Z.of_nat n) st Hk Hok)).
    change (Interval.handle iv) with (Interval.handle iv') at 1.
    rewrite (intervalCallback_tick st' k iv' Hok' Hk') by (cbn; lia).
    rewrite seq_S, map_app, app_assoc.
    unfold emit, st', Server.set_emitted, Server.set_intervals.
    cbn [Server.heap Server.activePlayers Server.sockets Server.intervals
         Server.nextHandle Server.timeouts Server.emitted Server.crashed
         Interval.handle Interval.player Interval.socket Interval.timeLeft iv'
         map app].
    rewrite list_insert_insert_eq.
    replace (Interval.timeLeft iv - Z.of_nat n - 1)
      with (Interval.timeLeft iv - Z.of_nat (S n)) by lia.
    replace (1 + n)%nat with (S n) by lia. done.
Qed.

Lemma timer_countdown_witness :
  reachable joinedState
  /\ Server.intervals joinedState !! O = Some (Interval.mk O O "s1" 60)
  /\ Server.intervals (Nat.iter 59 (intervalCallback O) joinedState)
     = [Interval.mk O O "s1" 1].
Proof.
  assert (Hi : Server.intervals joinedState !! O = Some (Interval.mk O O "s1" 60))
    by (vm_compute; reflexivity).
  split; [exact reachable_joinedState |]. split; [exact Hi |].
  pose proof (timer_countdown 59 joinedState O _ reachable_joinedState Hi
                ltac:(cbn; lia)) as H.
  cbn [Interval.handle] in H. rewrite H. vm_compute. reflexivity.
Defined.

(** X5: when an interval with at most a second left ticks on a reachable
    state, the socket gets the final [updateTimer] and the [Time up!]
    feedback with the answer of the player's current question, the
    advance is scheduled after 2000 ms, the interval is gone, the
    player's [timer] is null, and nothing is thrown. *)
Theorem timer_expiry st k iv :
  reachable st ->
  Server.intervals st !! k = Some iv ->
  Interval.timeLeft iv <= 1 ->
  exists p q,
    Server.heap st !! Interval.player iv = Some p
    /\ currentQuestion p = Some q
    /\ Server.emitted (intervalCallback (Interval.handle iv) st)
       = Server.emitted st
         ++ [(Unicast (Interval.socket iv), UpdateTimer (Interval.timeLeft iv - 1));
             (Unicast (Interval.socket iv),
              AnswerFeedback
                (Feedback.mk false (Some "Time up!") (Some (Question.answer q))))]
    /\ Server.timeouts (intervalCallback (Interval.handle iv) st)
       = Server.timeouts st ++ [(2000, Interval.socket iv)]
    /\ Forall (fun iv' => Interval.handle iv' <> Interval.handle iv)
         (Server.intervals (intervalCallback (Interval.handle iv) st))
    /\ Server.heap (intervalCallback (Interval.handle iv) st)
       = <[Interval.player iv := Player.set_timer None p]> (Server.heap st)
    /\ Server.crashed (intervalCallback (Interval.handle iv) st) = false.
Proof.
  intros Hreach Hk Ht.
  pose proof (reachable_handles st Hreach) as Hok.
  destruct (reachable_timers st Hreach) as [Htm Hlive].
  destruct (Htm iv (list_elem_of_lookup_2 _ _ _ Hk)) as (p & Hp & Htp & Hsp).
  destruct (in_progress_has_question p) as [q Hq];
    [by eapply (Forall_lookup_1 _ _ _ _ (reachable_ok st Hreach)) | done |].
  exists p, q. split; [done |]. split; [done |].
  unfold intervalCallback. rewrite (list_find_interval st k iv Hok Hk).
  cbn [Interval.socket Interval.player Interval.timeLeft].
  destruct (_ <=? 0) eqn:Hc; [| apply Z.leb_gt in Hc; lia].
  change (Server.heap (emit _ _ (Server.set_intervals _ st))) with (Server.heap st).
  rewrite Hp.
  change (currentQuestion (Player.set_timer None p)) with (currentQuestion p).
  rewrite Hq. unfold clearTimerOf. rewrite Htp. cbn.
  rewrite <- app_assoc. repeat split; try done.
  apply Forall_forall. by intros iv' [? _]%list_elem_of_filter.
Qed.

Lemma timer_expiry_witness :
  reachable lastSecondState
  /\ Server.intervals lastSecondState !! O = Some (Interval.mk O O "s1" 1)
  /\ Server.timeouts (intervalCallback O lastSecondState) = [(2000, "s1")].
Proof.
  assert (Hi : Server.intervals lastSecondState !! O = Some (Interval.mk O O "s1" 1))
    by (vm_compute; reflexivity).
  split; [exact reachable_lastSecondState |]. split; [exact Hi |].
  destruct (timer_expiry lastSecondState O _ reachable_lastSecondState Hi)
    as (p & q & _ & _ & _ & Hto & _); [cbn; lia |].
  exact Hto.
Defined.

(** ** Player objects keep their identity *)

#[local] Instance player_grows_refl : Reflexive player_grows.
Proof. intros p. by repeat split. Qed.

#[local] Instance player_grows_trans : Transitive player_grows.
Proof.
  intros p1 p2 p3 (Hi & Hn & Hq & Hg & Hs) (Hi' & Hn' & Hq' & Hg' & Hs').
  repeat split; try congruence.
  intros Hpts. specialize (Hs Hpts). rewrite Hq in Hs'. specialize (Hs' Hpts). lia.
Qed.

Lemma grows_insert h r p p' :
  h !! r = Some p -> player_grows p p' -> Forall2 player_grows h (<[r := p']> h).
Proof.
  intros Hr Hg. rewrite <- (list_insert_id h r p) at 1 by done.
  by apply Forall2_insert.
Qed.

Lemma currentQuestion_elem p q : currentQuestion p = Some q -> q ∈ Player.questionSet p.
Proof.
  unfold currentQuestion, index. destruct (_ <? 0); [done |].
  apply list_elem_of_lookup_2.
Qed.

Lemma startQuestionTimer_grows sid now st :
  Forall2 player_grows (Server.heap st) (Server.heap (startQuestionTimer sid now st)).
Proof.
  unfold startQuestionTimer.
  destruct (getPlayer st sid) as [[r p] |] eqn:Hg; [| done].
  apply getPlayer_Some in Hg as [_ Hr].
  destruct (Player.finished p); [done |].
  destruct (negb _); cbn; rewrite clearTimerOf_heap; [done |].
  by apply (grows_insert _ r p).
Qed.

Lemma moveToNextQuestion_grows sid now st :
  Forall2 player_grows (Server.heap st) (Server.heap (moveToNextQuestion sid now st)).
Proof.
  unfold moveToNextQuestion.
  destruct (getPlayer st sid) as [[r p] |] eqn:Hg; [| done].
  apply getPlayer_Some in Hg as [_ Hr].
  set (p1 := match Player.timer p with Some _ => Player.set_timer None p | None => p end).
  assert (Hp1 : player_grows p p1) by (subst p1; by destruct (Player.timer p)).
  destruct (_ <? MAX_QUESTIONS).
  - rewrite broadcastLeaderboard_heap.
    etrans; [| apply startQuestionTimer_grows]. cbn. rewrite clearTimerOf_heap.
    apply (grows_insert _ r p); [done |]. etrans; [exact Hp1 | done].
  - rewrite checkAndNotifyWinners_heap, broadcastLeaderboard_heap. cbn.
    rewrite clearTimerOf_heap, list_insert_insert_eq.
    apply (grows_insert _ r p); [done |]. etrans; [exact Hp1 | done].
Qed.

Lemma intervalCallback_grows h st :
  Forall2 player_grows (Server.heap st) (Server.heap (intervalCallback h st)).
Proof.
  unfold intervalCallback.
  destruct (list_find _ _) as [[k iv] |]; [| done].
  destruct (_ <=? 0); [| done]. cbn.
  destruct (Server.heap st !! Interval.player iv) as [p |] eqn:Hp; [| done].
  assert (H : Forall2 player_grows (Server.heap st)
                (<[Interval.player iv := Player.set_timer None p]> (Server.heap st)))
    by (by apply (grows_insert _ _ p)).
  destruct (currentQuestion _); cbn; by rewrite clearTimerOf_heap.
Qed.

Lemma submitAnswer_grows sid data st :
  Forall2 player_grows (Server.heap st) (Server.heap (submitAnswer sid data st)).
Proof.
  unfold submitAnswer.
  destruct (getPlayer st sid) as [[r p] |] eqn:Hg; [| done].
  apply getPlayer_Some in Hg as [_ Hr].
  destruct (Player.finished p); [done |].
  unfold submitAnswer_try.
  destruct data as [d |]; [| done].
  destruct (parseInt _) as [n |], (currentQuestion p) as [q |] eqn:Hq; try done.
  set (p1 := match Player.timer p with Some _ => Player.set_timer None p | None => p end).
  assert (Hp1 : player_grows p p1) by (subst p1; by destruct (Player.timer p)).
  assert (Hsc : Player.score p1 = Player.score p)
    by (subst p1; by destruct (Player.timer p)).
  destruct (_ && _); cbn; rewrite clearTimerOf_heap, ?list_insert_insert_eq;
    (apply (grows_insert _ r p); [done |]); [| done].
  destruct Hp1 as (Hi & Hn & Hqs & Hg & _). repeat split; try done. cbn.
  intros Hpts. rewrite Hsc.
  apply currentQuestion_elem in Hq.
  eapply Forall_forall in Hpts; [| exact Hq]. lia.
Qed.

Lemma joinGame_grows sid playerName env st :
  Forall2 player_grows (Server.heap st ++ [newPlayer sid playerName env])
    (Server.heap (joinGame sid playerName env st)).
Proof.
  unfold joinGame. rewrite checkAndNotifyWinners_heap, broadcastLeaderboard_heap.
  match goal with
  | |- Forall2 _ _ (Server.heap (startQuestionTimer _ _ ?s)) =>
      exact (startQuestionTimer_grows sid (JoinEnv.timerNow env) s)
  end.
Qed.

(** One handler run keeps every player object, in its place, and adds the
    object of a join at the end. *)
Lemma step_grows i st st' :
  step i st = Some st' ->
  Forall2 player_grows (Server.heap st ++ joinedPlayers [i]) (Server.heap st').
Proof.
  unfold step. destruct (Server.crashed st); [done |].
  destruct i as [sid | sid nm env | sid data | sid | h | k now]; cbn;
    rewrite ?app_nil_r.
  - case_bool_decide; [done |]. by intros [= <-].
  - destruct (_ && _); [| done]. intros [= <-]. apply joinGame_grows.
  - case_bool_decide; [| done]. intros [= <-]. apply submitAnswer_grows.
  - case_bool_decide; [| done]. intros [= <-]. by rewrite disconnect_heap.
  - destruct (list_find _ _); [| done]. intros [= <-]. apply intervalCallback_grows.
  - destruct (Server.timeouts st !! k) as [[d sid] |]; [| done]. intros [= <-].
    apply (moveToNextQuestion_grows sid now
             (Server.set_timeouts (delete k (Server.timeouts st)) st)).
Qed.

Lemma joinedPlayers_cons i tr :
  joinedPlayers (i :: tr) = joinedPlayers [i] ++ joinedPlayers tr.
Proof. by destruct i. Qed.

Lemma run_grows tr :
  forall st st', run tr st = Some st' ->
    Forall2 player_grows (Server.heap st ++ joinedPlayers tr) (Server.heap st').
Proof.
  induction tr as [| i tr IH]; intros st st'; cbn [run].
  - intros [= <-]. cbn. by rewrite app_nil_r.
  - destruct (step i st) as [st1 |] eqn:Hs; [| done]. intros Hrun.
    apply step_grows in Hs. apply IH in Hrun.
    rewrite joinedPlayers_cons, app_assoc. etrans; [| exact Hrun].
    by apply Forall2_app.
Qed.

Lemma generateQuestionSet_points clock draws :
  Forall (fun q => Question.points q = 10) (generateQuestionSet clock draws).
Proof.
  apply Forall_lookup. intros i q Hq.
  by apply generateQuestionSet_lookup in Hq as [_ ->].
Qed.

Lemma joinedPlayers_quiz tr :
  Forall (fun p => Forall (fun q => Question.points q = 10) (Player.questionSet p))
    (joinedPlayers tr).
Proof.
  apply Forall_forall. intros p Hp. unfold joinedPlayers in Hp.
  apply list_elem_of_omap in Hp as (i & _ & Hi).
  destruct i; try done. injection Hi as <-. apply generateQuestionSet_points.
Qed.

Lemma reachable_quiz st : reachable st -> quiz_ok st.
Proof.
  intros [tr Hrun]. apply run_grows in Hrun. cbn in Hrun.
  unfold quiz_ok. eapply Forall2_Forall_r; [exact Hrun |].
  eapply Forall_impl; [apply joinedPlayers_quiz |].
  intros p Hp p' (_ & _ & Hq & _). by rewrite Hq.
Qed.

(** X6: over any run from a reachable state every player object stays
    where it is and keeps its id, name, question set and start time, and
    its score never goes down; the heap only grows, by the objects of the
    joins of the run. *)
Theorem player_objects_persist tr st st' r p :
  reachable st ->
  run tr st = Some st' ->
  Server.heap st !! r = Some p ->
  length (Server.heap st') = (length (Server.heap st) + length (joinedPlayers tr))%nat
  /\ exists p',
       Server.heap st' !! r = Some p'
       /\ Player.id p' = Player.id p
       /\ Player.name p' = Player.name p
       /\ Player.questionSet p' = Player.questionSet p
       /\ Player.gameStartTime p' = Player.gameStartTime p
       /\ Player.score p <= Player.score p'.
Proof.
  intros Hreach Hrun Hr.
  pose proof (run_grows tr st st' Hrun) as Hg.
  split; [by rewrite <- (Forall2_length _ _ _ Hg), length_app |].
  destruct (Forall2_lookup_l _ _ _ r p Hg) as (p' & Hp' & Hi & Hn & Hq & Hs & Hsc);
    [by apply lookup_app_l_Some |].
  exists p'. repeat split; try done.
  apply Hsc. eapply Forall_impl.
  - eapply (Forall_lookup_1 _ _ _ _ (reachable_quiz st Hreach)), Hr.
  - cbn. intros q ->. lia.
Qed.

Lemma player_objects_persist_witness :
  reachable joinedState
  /\ run round joinedState = Some secondQuestionState
  /\ Server.heap joinedState !! O = Some alice
  /\ length (Server.heap secondQuestionState) = 1%nat.
Proof.
  assert (Hrun : run round joinedState = Some secondQuestionState)
    by (vm_compute; reflexivity).
  assert (Hr : Server.heap joinedState !! O = Some alice) by (vm_compute; reflexivity).
  split; [exact reachable_joinedState |]. split; [exact Hrun |]. split; [exact Hr |].
  exact (proj1 (player_objects_persist round joinedState secondQuestionState O alice
                  reachable_joinedState Hrun Hr)).
Defined.

(** ** The registry *)

Lemma clearTimerOf_registry p st :
  Server.activePlayers (clearTimerOf p st) = Server.activePlayers st
  /\ Server.sockets (clearTimerOf p st) = Server.sockets st.
Proof. unfold clearTimerOf. by destruct (Player.timer p). Qed.

Lemma startQuestionTimer_registry sid now st :
  Server.activePlayers (startQuestionTimer sid now st) = Server.activePlayers st
  /\ Server.sockets (startQuestionTimer sid now st) = Server.sockets st.
Proof.
  unfold startQuestionTimer.
  destruct (getPlayer st sid) as [[r p] |]; [| done].
  destruct (Player.finished p); [done |].
  destruct (negb _); cbn; apply clearTimerOf_registry.
Qed.

Lemma checkAndNotifyWinners_registry st :
  Server.activePlayers (checkAndNotifyWinners st) = Server.activePlayers st
  /\ Server.sockets (checkAndNotifyWinners st) = Server.sockets st.
Proof. unfold checkAndNotifyWinners. by destruct (0 <? _)%nat. Qed.

Lemma moveToNextQuestion_registry sid now st :
  Server.activePlayers (moveToNextQuestion sid now st) = Server.activePlayers st
  /\ Server.sockets (moveToNextQuestion sid now st) = Server.sockets st.
Proof.
  unfold moveToNextQuestion.
  destruct (getPlayer st sid) as [[r p] |]; [| done].
  destruct (_ <? MAX_QUESTIONS).
  - cbn.
    match goal with
    | |- context [startQuestionTimer ?a ?b ?s] =>
        destruct (startQuestionTimer_registry a b s) as [-> ->]
    end.
    cbn. apply clearTimerOf_registry.
  - match goal with
    | |- context [checkAndNotifyWinners ?s] =>
        destruct (checkAndNotifyWinners_registry s) as [-> ->]
    end.
    cbn. apply clearTimerOf_registry.
Qed.

Lemma submitAnswer_registry sid data st :
  Server.activePlayers (submitAnswer sid data st) = Server.activePlayers st
  /\ Server.sockets (submitAnswer sid data st) = Server.sockets st.
Proof.
  unfold submitAnswer, submitAnswer_try.
  destruct (getPlayer st sid) as [[r p] |]; [| done].
  destruct (Player.finished p); [done |].
  destruct data as [d |]; [| done].
  destruct (parseInt _), (currentQuestion p); try done;
    destruct (_ && _); cbn; apply clearTimerOf_registry.
Qed.

Lemma intervalCallback_registry h st :
  Server.activePlayers (intervalCallback h st) = Server.activePlayers st
  /\ Server.sockets (intervalCallback h st) = Server.sockets st.
Proof.
  unfold intervalCallback.
  destruct (list_find _ _) as [[k iv] |]; [| done].
  destruct (_ <=? 0); [| done]. cbn.
  destruct (Server.heap st !! Interval.player iv) as [p |]; [| done].
  destruct (currentQuestion _); cbn; unfold clearTimerOf; by destruct (Player.timer p).
Qed.

Lemma registry_set_cons sid r k r' reg :
  registry_set sid r ((k, r') :: reg)
  = if decide (k = sid) then (k, r) :: reg else (k, r') :: registry_set sid r reg.
Proof. cbn [registry_set]. case_bool_decide; case_decide; done. Qed.

Lemma registry_lookup_cons sid k r reg :
  registry_lookup sid ((k, r) :: reg)
  = if decide (k = sid) then Some r else registry_lookup sid reg.
Proof. cbn [registry_lookup]. case_bool_decide; case_decide; done. Qed.

Lemma registry_set_keys sid r reg :
  map fst (registry_set sid r reg)
  = if bool_decide (sid ∈ map fst reg) then map fst reg else map fst reg ++ [sid].
Proof.
  induction reg as [| [k r'] reg IH].
  - cbn. by rewrite bool_decide_eq_false_2 by apply not_elem_of_nil.
  - rewrite registry_set_cons. destruct (decide (k = sid)) as [-> | Hk].
    + cbn. by rewrite bool_decide_eq_true_2 by left.
    + cbn [map fst]. rewrite IH. case_bool_decide as Hin.
      * by rewrite bool_decide_eq_true_2 by (by right).
      * rewrite bool_decide_eq_false_2; [done |].
        intros [-> | ?]%elem_of_cons; done.
Qed.

Lemma registry_set_elem sid r reg k r' :
  (k, r') ∈ registry_set sid r reg -> (k = sid /\ r' = r) \/ (k, r') ∈ reg.
Proof.
  induction reg as [| [k0 r0] reg IH].
  - cbn. intros [= -> ->]%list_elem_of_singleton. by left.
  - rewrite registry_set_cons. destruct (decide (k0 = sid)) as [-> | Hk].
    + intros [[= -> ->] | Hin]%elem_of_cons; [by left | right; by right].
    + intros [[= -> ->] | Hin]%elem_of_cons; [right; by left |].
      destruct (IH Hin) as [? | ?]; [by left | right; by right].
Qed.

Lemma registry_set_lookup sid r reg : registry_lookup sid (registry_set sid r reg) = Some r.
Proof.
  induction reg as [| [k r'] reg IH].
  - cbn. by rewrite bool_decide_eq_true_2.
  - rewrite registry_set_cons. destruct (decide (k = sid)) as [-> | Hk];
      rewrite registry_lookup_cons.
    + by rewrite decide_True.
    + by rewrite decide_False.
Qed.

Lemma registry_set_lookup_ne sid sid' r reg :
  sid' <> sid -> registry_lookup sid' (registry_set sid r reg) = registry_lookup sid' reg.
Proof.
  intros Hne. induction reg as [| [k r'] reg IH].
  - cbn. by rewrite bool_decide_eq_false_2.
  - rewrite registry_set_cons. destruct (decide (k = sid)) as [-> | Hk];
      rewrite !registry_lookup_cons.
    + by rewrite !decide_False.
    + by rewrite IH.
Qed.

Lemma registry_delete_lookup_ne sid sid' reg :
  sid' <> sid -> registry_lookup sid' (registry_delete sid reg) = registry_lookup sid' reg.
Proof.
  intros Hne. unfold registry_delete. induction reg as [| [k r] reg IH]; [done |].
  rewrite filter_cons. cbn [fst]. destruct (decide (k <> sid)) as [Hk | Hk].
  - rewrite !registry_lookup_cons. by rewrite IH.
  - apply dec_stable in Hk. subst k.
    rewrite registry_lookup_cons, decide_False by done. exact IH.
Qed.

Lemma registry_lookup_elem sid r reg :
  registry_lookup sid reg = Some r -> (sid, r) ∈ reg.
Proof.
  induction reg as [| [k r'] reg IH]; [done |].
  rewrite registry_lookup_cons. destruct (decide (k = sid)) as [-> | Hk].
  - intros [= ->]. by left.
  - intros H. right. by apply IH.
Qed.

Lemma registry_lookup_key sid reg :
  sid ∈ map fst reg -> is_Some (registry_lookup sid reg).
Proof.
  induction reg as [| [k r'] reg IH].
  - by intros ?%elem_of_nil.
  - rewrite registry_lookup_cons. destruct (decide (k = sid)) as [-> | Hk]; [by eexists |].
    cbn. intros [-> | Hin]%elem_of_cons; [done | by apply IH].
Qed.

Lemma registry_ok_frame st st' news :
  registry_ok st ->
  Server.activePlayers st' = Server.activePlayers st /\ Server.sockets st' = Server.sockets st ->
  Forall2 player_grows (Server.heap st ++ news) (Server.heap st') ->
  registry_ok st'.
Proof.
  intros (Hk & Hs & He) [Hreg Hsock] Hg. unfold registry_ok. rewrite Hreg, Hsock.
  split; [done |]. split; [done |].
  eapply Forall_impl; [exact He |]. intros [k r] [Hin (p & Hp & Hid)]. cbn in *.
  split; [done |].
  destruct (Forall2_lookup_l _ _ _ r p Hg) as (p' & Hp' & Hid' & _);
    [by apply lookup_app_l_Some |].
  exists p'. split; [done | congruence].
Qed.

Lemma joinGame_registry_ok sid playerName env st :
  sid ∈ Server.sockets st -> registry_ok st -> registry_ok (joinGame sid playerName env st).
Proof.
  intros Hsid (Hk & Hs & He).
  pose proof (joinGame_grows sid playerName env st) as Hg.
  unfold joinGame in *.
  match goal with
  | |- registry_ok (checkAndNotifyWinners ?s) =>
      unfold registry_ok;
      destruct (checkAndNotifyWinners_registry s) as [-> ->];
      rewrite checkAndNotifyWinners_heap in *
  end.
  rewrite broadcastLeaderboard_heap in *. cbn [broadcastLeaderboard emit Server.activePlayers
    Server.sockets Server.set_emitted].
  match goal with
  | |- context [startQuestionTimer ?a ?b ?s] =>
      destruct (startQuestionTimer_registry a b s) as [-> ->];
      set (st1 := startQuestionTimer a b s) in *
  end.
  cbn [emit Server.activePlayers Server.sockets Server.set_emitted Server.set_activePlayers
       Server.set_heap].
  split; [| split; [done |]].
  - rewrite registry_set_keys. case_bool_decide as Hin; [done |].
    apply NoDup_app. split; [done |]. split; [| apply NoDup_singleton].
    intros k Hk1 ->%list_elem_of_singleton. done.
  - apply Forall_forall. intros [k r] Hin. cbn.
    apply registry_set_elem in Hin as [[-> ->] | Hin].
    + split; [done |].
      destruct (Forall2_lookup_l _ _ _ (length (Server.heap st))
                  (newPlayer sid playerName env) Hg) as (p' & Hp' & Hid' & _).
      { rewrite lookup_app_r by lia. by rewrite Nat.sub_diag. }
      exists p'. split; [done | by rewrite Hid'].
    + eapply Forall_forall in He; [| exact Hin]. destruct He as [Hks (p & Hp & Hid)].
      split; [done |]. cbn in *.
      destruct (Forall2_lookup_l _ _ _ r p Hg) as (p' & Hp' & Hid' & _);
        [by apply lookup_app_l_Some |].
      exists p'. split; [done | congruence].
Qed.

Lemma disconnect_registry_ok sid st :
  registry_ok st ->
  registry_ok
    (disconnect sid (Server.set_sockets (filter (fun s => s <> sid) (Server.sockets st)) st)).
Proof.
  intros (Hk & Hs & He). unfold disconnect.
  match goal with
  | |- registry_ok (checkAndNotifyWinners ?s) =>
      unfold registry_ok;
      destruct (checkAndNotifyWinners_registry s) as [-> ->];
      rewrite checkAndNotifyWinners_heap
  end.
  cbn [broadcastLeaderboard emit Server.activePlayers Server.sockets Server.heap
       Server.set_emitted Server.set_activePlayers].
  set (st0 := Server.set_sockets _ st).
  set (st1 := match getPlayer st0 sid with
              | Some (_, player) => clearTimerOf player st0
              | None => st0
              end).
  assert (H1 : Server.activePlayers st1 = Server.activePlayers st
               /\ Server.sockets st1 = filter (fun s => s <> sid) (Server.sockets st)
               /\ Server.heap st1 = Server.heap st).
  { subst st1. destruct (getPlayer st0 sid) as [[r p] |]; [| done].
    destruct (clearTimerOf_registry p st0) as [-> ->]. by rewrite clearTimerOf_heap. }
  destruct H1 as (-> & -> & ->).
  split; [| split].
  - rewrite map_fmap in *. eapply sublist_NoDup; [exact Hk |].
    apply fmap_sublist, sublist_filter.
  - by apply NoDup_filter.
  - apply Forall_forall. intros [k r] [Hne Hin]%list_elem_of_filter. cbn in *.
    eapply Forall_forall in He; [| exact Hin]. destruct He as [Hks Hp].
    split; [| done]. by apply list_elem_of_filter.
Qed.

Lemma step_registry_ok i st st' : registry_ok st -> step i st = Some st' -> registry_ok st'.
Proof.
  intros Hok Hstep. pose proof (step_grows i st st' Hstep) as Hg. revert Hstep.
  unfold step. destruct (Server.crashed st); [done |].
  destruct i as [sid | sid nm env | sid data | sid | h | k now].
  - case_bool_decide as Hin; [done |]. intros [= <-].
    destruct Hok as (Hk & Hs & He). split; [done |]. split.
    + cbn. apply NoDup_app. split; [done |]. split; [| apply NoDup_singleton].
      by intros s Hs1 ->%list_elem_of_singleton.
    + cbn. eapply Forall_impl; [exact He |]. intros [k r] [Hks Hp].
      split; [apply elem_of_app; by left | done].
  - case_bool_decide as Hin; [| done]. destruct (JoinEnv.possible env); [| done].
    intros [= <-]. by apply joinGame_registry_ok.
  - case_bool_decide; [| done]. intros [= <-].
    eapply registry_ok_frame; [done | apply submitAnswer_registry | exact Hg].
  - case_bool_decide; [| done]. intros [= <-]. by apply disconnect_registry_ok.
  - destruct (list_find _ _); [| done]. intros [= <-].
    eapply registry_ok_frame; [done | apply intervalCallback_registry | exact Hg].
  - destruct (Server.timeouts st !! k) as [[d sid] |]; [| done]. intros [= <-].
    eapply registry_ok_frame; [done | | exact Hg].
    apply (moveToNextQuestion_registry sid now
             (Server.set_timeouts (delete k (Server.timeouts st)) st)).
Qed.

Lemma reachable_registry st : reachable st -> registry_ok st.
Proof.
  intros [tr Hrun]. revert Hrun.
  assert (H0 : registry_ok Server.init) by (repeat split; constructor).
  revert H0. generalize Server.init. induction tr as [| i tr IH]; intros s Hs; cbn.
  - by intros [= <-].
  - destruct (step i s) as [s1 |] eqn:Hstep; [| done].
    apply IH. by eapply step_registry_ok.
Qed.

Lemma players_ids st :
  registry_ok st -> map Player.id (players st) = map fst (Server.activePlayers st).
Proof.
  intros (_ & _ & He). unfold players.
  induction He as [| [k r] reg [_ (p & Hp & Hid)] He IH]; [done |].
  cbn in *. rewrite Hp. cbn. by rewrite Hid, IH.
Qed.

(** ** Sessions and sockets *)

(** X7: in every reachable state the registry has one session per socket
    id, each for a connected socket and held by a player object with that
    id; so [Object.values] yields one player per entry. *)
Theorem sessions_belong_to_sockets st :
  reachable st ->
  NoDup (map fst (Server.activePlayers st))
  /\ (forall sid r,
        registry_lookup sid (Server.activePlayers st) = Some r ->
        sid ∈ Server.sockets st
        /\ exists p, getPlayer st sid = Some (r, p) /\ Player.id p = sid)
  /\ length (players st) = length (Server.activePlayers st).
Proof.
  intros Hreach. pose proof (reachable_registry st Hreach) as Hok.
  pose proof (players_ids st Hok) as Hids.
  destruct Hok as (Hk & _ & He).
  split; [done |]. split.
  - intros sid r Hl. pose proof (registry_lookup_elem _ _ _ Hl) as Hin.
    eapply Forall_forall in He; [| exact Hin]. cbn in He.
    destruct He as [Hs (p & Hp & Hid)]. split; [done |].
    exists p. unfold getPlayer. by rewrite Hl, Hp.
  - by rewrite <- (length_map Player.id), Hids, length_map.
Qed.

Lemma sessions_belong_to_sockets_witness :
  reachable joinedState /\ length (players joinedState) = 1%nat.
Proof.
  split; [exact reachable_joinedState |].
  destruct (sessions_belong_to_sockets joinedState reachable_joinedState) as (_ & _ & ->).
  reflexivity.
Defined.

Lemma players_heap st p : p ∈ players st -> exists r, Server.heap st !! r = Some p.
Proof.
  unfold players. intros ([k r] & _ & Hp)%list_elem_of_omap. by exists r.
Qed.

(** X8: on a reachable state the leaderboard has one row per session of
    the registry, and each row is either a finished one, labelled with its
    formatted time and carrying it, or a running one, labelled [Qk/10]
    with k between 1 and 10 and carrying no time. *)
Theorem leaderboard_rows st :
  reachable st ->
  map Entry.id (map leaderboardEntry (rank (players st)))
  ≡ₚ map fst (Server.activePlayers st)
  /\ Forall
       (fun e =>
          (exists t,
              Entry.status e = "Finished (" +:+ formatTime t +:+ ")"
              /\ Entry.totalTimeMs e = Some t)
          \/ (exists k,
                1 <= k <= 10
                /\ Entry.status e = "Q" +:+ toString k +:+ "/10"
                /\ Entry.totalTimeMs e = None))
       (map leaderboardEntry (rank (players st))).
Proof.
  intros Hreach. split.
  - rewrite map_map. change (fun x => Entry.id (leaderboardEntry x)) with Player.id.
    rewrite <- (players_ids st (reachable_registry st Hreach)).
    rewrite !map_fmap. apply fmap_Permutation, sort_by_Permutation.
  - rewrite map_fmap. apply Forall_fmap, Forall_forall. intros p Hp.
    unfold rank in Hp. rewrite (sort_by_Permutation leaderboardCompare) in Hp.
    apply players_heap in Hp as [r Hr].
    destruct (Forall_lookup_1 _ _ _ _ (reachable_ok st Hreach) Hr) as (H0 & _ & Hfin).
    cbn. unfold leaderboardEntry. rewrite finished_status.
    destruct (Player.status p) eqn:Hs; cbn.
    + right. exists (Player.questionIndex p + 1).
      assert (~ MAX_QUESTIONS <= Player.questionIndex p) by (rewrite <- Hfin; congruence).
      unfold MAX_QUESTIONS in *. split; [lia | done].
    + left. by eexists.
Qed.

Lemma leaderboard_rows_witness :
  reachable joinedState
  /\ map Entry.id (map leaderboardEntry (rank (players joinedState))) ≡ₚ ["s1"].
Proof.
  split; [exact reachable_joinedState |].
  exact (proj1 (leaderboard_rows joinedState reachable_joinedState)).
Defined.

Lemma players_elem st sid r p : getPlayer st sid = Some (r, p) -> p ∈ players st.
Proof.
  intros [Hl Hr]%getPlayer_Some. unfold players. apply list_elem_of_omap.
  exists (sid, r). split; [by apply registry_lookup_elem | done].
Qed.

Lemma winners_length ps p :
  p ∈ ps -> Player.status p = Finished -> (1 <= length (winners ps) <= 3)%nat.
Proof.
  intros Hp Hs.
  assert (Hin : p ∈ filter (fun p => Player.status p = Finished) ps)
    by (by apply list_elem_of_filter).
  assert (Hlen : (1 <= length (sort_by winnersCompare
                                 (filter (fun p => Player.status p = Finished) ps)))%nat).
  { rewrite (Permutation_length (sort_by_Permutation winnersCompare _)).
    destruct (filter _ _); [by apply elem_of_nil in Hin | cbn; lia]. }
  unfold winners, topFinished. rewrite length_map, length_take. lia.
Qed.

(** X9: when the registry holds a finished session, the winners
    recomputation broadcasts one [winnerNotification], with between one
    and three winners. *)
Theorem finished_sessions_are_announced st p :
  p ∈ players st ->
  Player.status p = Finished ->
  checkAndNotifyWinners st = emit Broadcast (WinnerNotification (winners (players st))) st
  /\ (1 <= length (winners (players st)) <= 3)%nat.
Proof.
  intros Hp Hs. pose proof (winners_length _ _ Hp Hs) as Hw.
  split; [| exact Hw].
  unfold checkAndNotifyWinners.
  destruct (0 <? _)%nat eqn:Hc; [done |]. apply Nat.ltb_ge in Hc. lia.
Qed.

Lemma finished_sessions_are_announced_witness :
  aliceFinished ∈ players finishedState
  /\ Player.status aliceFinished = Finished
  /\ (1 <= length (winners (players finishedState)) <= 3)%nat.
Proof.
  assert (Hin : aliceFinished ∈ players finishedState).
  { change (players finishedState) with [aliceFinished]. by left. }
  split; [exact Hin |]. split; [reflexivity |].
  exact (proj2 (finished_sessions_are_announced finishedState aliceFinished Hin eq_refl)).
Defined.

(** ** Joining *)

Lemma startQuestionTimer_running sid now st r p :
  getPlayer st sid = Some (r, p) ->
  Player.status p = InProgress ->
  sid ∈ Server.sockets st ->
  startQuestionTimer sid now st
  = setPlayer r
      (Player.set_timer (Some (Server.nextHandle st))
         (Player.set_currentQuestionStartTime (Some now) p))
      (Server.set_intervals
         (Server.intervals (clearTimerOf p st)
          ++ [Interval.mk (Server.nextHandle st) r sid TIME_PER_QUESTION_SECONDS])
         (Server.set_nextHandle (S (Server.nextHandle st))
            (emit (Unicast sid) (UpdateTimer TIME_PER_QUESTION_SECONDS)
               (clearTimerOf p st)))).
Proof.
  intros Hg Hs Hsock. unfold startQuestionTimer.
  rewrite Hg, (finished_false p Hs).
  destruct (clearTimerOf_registry p st) as [_ Hsk]. rewrite Hsk.
  rewrite bool_decide_eq_true_2 by done. cbn [negb].
  cbn [emit Server.nextHandle Server.set_emitted Server.intervals].
  by rewrite clearTimerOf_nextHandle.
Qed.

Lemma getPlayer_frame st st' sid :
  Server.activePlayers st' = Server.activePlayers st ->
  Server.heap st' = Server.heap st ->
  getPlayer st' sid = getPlayer st sid.
Proof. unfold getPlayer. by intros -> ->. Qed.

Lemma joinGame_state sid playerName env st :
  sid ∈ Server.sockets st ->
  let r := length (Server.heap st) in
  let p :=
    Player.set_timer (Some (Server.nextHandle st))
      (Player.set_currentQuestionStartTime (Some (JoinEnv.timerNow env))
         (newPlayer sid playerName env)) in
  Server.heap (joinGame sid playerName env st) = Server.heap st ++ [p]
  /\ Server.activePlayers (joinGame sid playerName env st)
     = registry_set sid r (Server.activePlayers st)
  /\ Server.intervals (joinGame sid playerName env st)
     = Server.intervals st ++ [Interval.mk (Server.nextHandle st) r sid 60]
  /\ exists rest,
       Server.emitted (joinGame sid playerName env st)
       = Server.emitted st
         ++ [(Unicast sid,
              NewQuestion
                (newQuestionPayload
                   (index (generateQuestionSet (JoinEnv.clock env) (JoinEnv.draws env)) 0) 1));
             (Unicast sid, UpdateTimer 60)]
         ++ rest.
Proof.
  intros Hsock r p. unfold joinGame.
  set (st0 := emit _ _ (Server.set_activePlayers _ (Server.set_heap _ st))).
  assert (Hg : getPlayer st0 sid = Some (r, newPlayer sid playerName env)).
  { unfold getPlayer, st0. cbn. rewrite registry_set_lookup.
    rewrite lookup_app_r by done. by rewrite Nat.sub_diag. }
  rewrite (startQuestionTimer_running sid _ st0 r _ Hg eq_refl Hsock).
  change (clearTimerOf (newPlayer sid playerName env) st0) with st0.
  rewrite checkAndNotifyWinners_heap, broadcastLeaderboard_heap.
  destruct (checkAndNotifyWinners_registry
              (broadcastLeaderboard
                 (setPlayer r p
                    (Server.set_intervals
                       (Server.intervals st0
                        ++ [Interval.mk (Server.nextHandle st) r sid TIME_PER_QUESTION_SECONDS])
                       (Server.set_nextHandle (S (Server.nextHandle st))
                          (emit (Unicast sid) (UpdateTimer TIME_PER_QUESTION_SECONDS) st0))))))
    as [Hreg _].
  split; [| split; [exact Hreg | split]].
  - cbn. rewrite insert_app_r_alt by done. by rewrite Nat.sub_diag.
  - unfold checkAndNotifyWinners. by destruct (0 <? _)%nat.
  - unfold checkAndNotifyWinners. destruct (0 <? _)%nat; cbn;
      rewrite <- !app_assoc; cbn; eauto.
Qed.

(** X10: [joinGame] on a connected socket creates a fresh player object
    at the end of the heap: score 0, index 0, running, ten generated
    questions, a name that is never empty (the given one, or [Player n]),
    and a new 60 second interval as its timer.  No interval that was live
    is stopped, and the sessions of other sockets are as they were. *)
Theorem joinGame_creates_session st sid playerName env :
  sid ∈ Server.sockets st ->
  exists p,
    getPlayer (joinGame sid playerName env st) sid = Some (length (Server.heap st), p)
    /\ p = Player.set_timer (Some (Server.nextHandle st))
             (Player.set_currentQuestionStartTime (Some (JoinEnv.timerNow env))
                (newPlayer sid playerName env))
    /\ Player.score p = 0 /\ Player.questionIndex p = 0
    /\ Player.status p = InProgress
    /\ length (Player.questionSet p) = 10%nat
    /\ truthy (Player.name p) = true
    /\ Server.intervals (joinGame sid playerName env st)
       = Server.intervals st
         ++ [Interval.mk (Server.nextHandle st) (length (Server.heap st)) sid 60]
    /\ forall sid' r' p',
         sid' <> sid -> getPlayer st sid' = Some (r', p') ->
         getPlayer (joinGame sid playerName env st) sid' = Some (r', p').
Proof.
  intros Hsock.
  destruct (joinGame_state sid playerName env st Hsock) as (Hheap & Hreg & Hiv & _).
  eexists. split.
  { unfold getPlayer. rewrite Hreg, Hheap, registry_set_lookup.
    rewrite lookup_app_r by done. by rewrite Nat.sub_diag. }
  split; [done |]. split; [done |]. split; [done |]. split; [done |].
  split; [apply length_generateQuestionSet |]. split.
  { cbn. destruct (truthy playerName) eqn:Ht; [done | done]. }
  split; [done |].
  intros sid' r' p' Hne [Hl Hp]%getPlayer_Some.
  unfold getPlayer. rewrite Hreg, Hheap, registry_set_lookup_ne, Hl by done.
  by rewrite (lookup_app_l_Some _ _ _ _ Hp).
Qed.

Lemma joinGame_creates_session_witness :
  "s1" ∈ Server.sockets joinedState
  /\ Server.intervals (joinGame "s1" (JStr "") env0 joinedState)
     = [Interval.mk O O "s1" 60; Interval.mk 1%nat 1%nat "s1" 60].
Proof.
  assert (Hs : "s1" ∈ Server.sockets joinedState).
  { change (Server.sockets joinedState) with ["s1"]. by left. }
  split; [exact Hs |].
  destruct (joinGame_creates_session joinedState "s1" (JStr "") env0 Hs)
    as (p & _ & _ & _ & _ & _ & _ & _ & Hiv & _).
  exact Hiv.
Defined.

Lemma length_rank ps : length (rank ps) = length ps.
Proof. apply Permutation_length, sort_by_Permutation. Qed.

(** X11: the first events of a join go to the joining socket: question 1
    of 10, then the timer at 60; the broadcasts follow. *)
Theorem joinGame_first_events st sid playerName env :
  sid ∈ Server.sockets st ->
  exists q rest,
    generateQuestionSet (JoinEnv.clock env) (JoinEnv.draws env) !! O = Some q
    /\ Server.emitted (joinGame sid playerName env st)
       = Server.emitted st
         ++ [(Unicast sid,
              NewQuestion
                (Question.toObject q ++ [("index", JNum 1); ("total", JNum 10)]));
             (Unicast sid, UpdateTimer 60);
             (Broadcast,
              UpdateLeaderboard
                (map leaderboardEntry (rank (players (joinGame sid playerName env st)))));
             (Broadcast, PlayerCount (length (players (joinGame sid playerName env st))))]
         ++ rest
    /\ (rest = [] \/ exists ws, rest = [(Broadcast, WinnerNotification ws)]).
Proof.
  intros Hsock.
  destruct (lookup_lt_is_Some_2 (generateQuestionSet (JoinEnv.clock env) (JoinEnv.draws env)) O)
    as [q Hq];
    [rewrite length_generateQuestionSet; change (Z.to_nat MAX_QUESTIONS) with 10%nat; lia |].
  assert (Hidx : index (generateQuestionSet (JoinEnv.clock env) (JoinEnv.draws env)) 0 = Some q)
    by exact Hq.
  unfold joinGame. cbv zeta. rewrite Hidx.
  set (st0 := emit _ _ (Server.set_activePlayers _ (Server.set_heap _ st))).
  assert (Hg : getPlayer st0 sid = Some (length (Server.heap st), newPlayer sid playerName env)).
  { unfold getPlayer, st0. cbn. rewrite registry_set_lookup.
    rewrite lookup_app_r by done. by rewrite Nat.sub_diag. }
  rewrite (startQuestionTimer_running sid _ st0 _ _ Hg eq_refl Hsock).
  change (clearTimerOf (newPlayer sid playerName env) st0) with st0.
  set (st1 := setPlayer _ _ _).
  assert (Hpl : forall s, players (checkAndNotifyWinners (broadcastLeaderboard s)) = players s).
  { intros s. unfold players.
    destruct (checkAndNotifyWinners_registry (broadcastLeaderboard s)) as [-> _].
    by rewrite checkAndNotifyWinners_heap. }
  rewrite Hpl.
  assert (Hem : Server.emitted st1
                = Server.emitted st
                  ++ [(Unicast sid,
                       NewQuestion
                         (Question.toObject q ++ [("index", JNum 1); ("total", JNum 10)]));
                      (Unicast sid, UpdateTimer 60)]).
  { subst st1 st0. cbn. by rewrite <- app_assoc. }
  clearbody st1. clear Hg. clearbody st0.
  exists q. unfold checkAndNotifyWinners.
  destruct (0 <? _)%nat.
  - eexists [_]. split; [done |]. split; [| right; by eexists].
    cbn. by rewrite Hem, length_map, length_rank, <- !app_assoc.
  - exists []. split; [done |]. split; [| by left].
    cbn. by rewrite Hem, length_map, length_rank, <- !app_assoc.
Qed.

Lemma joinGame_first_events_witness :
  "s1" ∈ Server.sockets joinedState
  /\ exists q, generateQuestionSet (JoinEnv.clock env0) (JoinEnv.draws env0) !! O = Some q.
Proof.
  assert (Hs : "s1" ∈ Server.sockets joinedState).
  { change (Server.sockets joinedState) with ["s1"]. by left. }
  split; [exact Hs |].
  destruct (joinGame_first_events joinedState "s1" (JStr "Bob") env0 Hs) as (q & _ & Hq & _).
  by exists q.
Defined.

(** ** Leaving *)

Lemma disconnect_state sid st :
  Server.heap (disconnect sid st) = Server.heap st
  /\ Server.activePlayers (disconnect sid st) = registry_delete sid (Server.activePlayers st)
  /\ Server.timeouts (disconnect sid st) = Server.timeouts st
  /\ Server.sockets (disconnect sid st) = Server.sockets st
  /\ Server.crashed (disconnect sid st) = Server.crashed st
  /\ Server.intervals (disconnect sid st)
     = match getPlayer st sid with
       | Some (_, p) => Server.intervals (clearTimerOf p st)
       | None => Server.intervals st
       end.
Proof.
  unfold disconnect, checkAndNotifyWinners.
  destruct (0 <? _)%nat; cbn;
    (destruct (getPlayer st sid) as [[r p] |]; cbn;
     [unfold clearTimerOf; by destruct (Player.timer p) | done]).
Qed.

(** X12: [disconnect] on a reachable state takes the session of the
    socket out of the registry and stops its timer: no live interval is
    left for its player object.  The sessions of the other sockets, the
    player objects and the pending timeouts are as they were: a delayed
    advance of the session that left is not cancelled. *)
Theorem disconnect_removes_session st sid r p :
  reachable st ->
  getPlayer st sid = Some (r, p) ->
  getPlayer (disconnect sid st) sid = None
  /\ (forall sid', sid' <> sid -> getPlayer (disconnect sid st) sid' = getPlayer st sid')
  /\ Forall (fun iv => Interval.player iv <> r) (Server.intervals (disconnect sid st))
  /\ Server.timeouts (disconnect sid st) = Server.timeouts st
  /\ Server.heap (disconnect sid st) = Server.heap st.
Proof.
  intros Hreach Hg.
  destruct (disconnect_state sid st) as (Hh & Hreg & Hto & _ & _ & Hiv).
  destruct (reachable_timers st Hreach) as [Htm _].
  pose proof Hg as [_ Hr]%getPlayer_Some.
  split; [| split; [| split; [| by split]]].
  - unfold getPlayer. by rewrite Hreg, registry_lookup_delete.
  - intros sid' Hne. unfold getPlayer. by rewrite Hreg, Hh, registry_delete_lookup_ne.
  - rewrite Hiv, Hg. apply Forall_forall.
    by apply (timers_ok_clear r p st Htm Hr).
Qed.

Lemma disconnect_removes_session_witness :
  reachable joinedState
  /\ getPlayer joinedState "s1" = Some (O, alice)
  /\ getPlayer (disconnect "s1" joinedState) "s1" = None.
Proof.
  assert (Hg : getPlayer joinedState "s1" = Some (O, alice)) by (vm_compute; reflexivity).
  split; [exact reachable_joinedState |]. split; [exact Hg |].
  exact (proj1 (disconnect_removes_session joinedState "s1" O alice
                  reachable_joinedState Hg)).
Defined.

(** X13: a delayed advance of a socket that has disconnected finds no
    player: when it fires, the only change is that the timeout is spent.
    The session is not created again and nothing is emitted. *)
Theorem pending_advance_after_disconnect st st1 sid k d now :
  step (Disconnect sid) st = Some st1 ->
  Server.timeouts st1 !! k = Some (d, sid) ->
  Server.timeouts st1 = Server.timeouts st
  /\ step (TimeoutFires k now) st1
     = Some (Server.set_timeouts (delete k (Server.timeouts st1)) st1).
Proof.
  unfold step at 1. destruct (Server.crashed st) eqn:Hc; [done |].
  case_bool_decide; [| done]. intros [= <-] Hk.
  set (st0 := Server.set_sockets _ st) in *.
  destruct (disconnect_state sid st0) as (Hh & Hreg & Hto & _ & Hcr & _).
  split; [exact Hto |].
  unfold step. rewrite Hcr. change (Server.crashed st0) with (Server.crashed st).
  rewrite Hc, Hk. f_equal. apply moveToNextQuestion_absent.
  unfold getPlayer. cbn [Server.activePlayers Server.set_timeouts].
  by rewrite Hreg, registry_lookup_delete.
Qed.

Lemma pending_advance_after_disconnect_witness :
  step (Disconnect "s1") submittedState = Some disconnectedState
  /\ Server.timeouts disconnectedState !! O = Some (2000, "s1")
  /\ step (TimeoutFires O 1700000005000) disconnectedState
     = Some (Server.set_timeouts [] disconnectedState).
Proof.
  assert (Hs : step (Disconnect "s1") submittedState = Some disconnectedState)
    by (vm_compute; reflexivity).
  assert (Hk : Server.timeouts disconnectedState !! O = Some (2000, "s1"))
    by (vm_compute; reflexivity).
  split; [exact Hs |]. split; [exact Hk |].
  destruct (pending_advance_after_disconnect submittedState disconnectedState "s1" O 2000
              1700000005000 Hs Hk) as [_ ->].
  vm_compute. reflexivity.
Defined.

(** ** Submissions *)

Lemma submitAnswer_correct st sid r p q d :
  getPlayer st sid = Some (r, p) ->
  Player.status p = InProgress ->
  currentQuestion p = Some q ->
  Data.questionId d = JNum (Question.id q) ->
  parseInt (Data.answer d) = Some (Question.answer q) ->
  let p' :=
    Player.set_score (Player.score p + Question.points q) (Player.set_timer None p) in
  getPlayer (submitAnswer sid (Some d) st) sid = Some (r, p')
  /\ Server.timeouts (submitAnswer sid (Some d) st) = Server.timeouts st ++ [(1000, sid)]
  /\ Server.emitted (submitAnswer sid (Some d) st)
     = Server.emitted st
       ++ [(Unicast sid, AnswerFeedback (Feedback.mk true None (Some (Question.answer q))))].
Proof.
  intros Hg Hs Hq Hid Hans p'.
  pose proof Hg as [Hl Hr]%getPlayer_Some. apply lookup_lt_Some in Hr.
  unfold submitAnswer. rewrite Hg, (finished_false p Hs).
  unfold submitAnswer_try. rewrite Hans, Hq, Hid.
  unfold strict_eq. rewrite bool_decide_eq_true_2, Z.eqb_refl by done. cbn [andb].
  assert (Hp' : Player.set_score
                  (Player.score
                     match Player.timer p with
                     | Some _ => Player.set_timer None p
                     | None => p
                     end + Question.points q)
                  match Player.timer p with
                  | Some _ => Player.set_timer None p
                  | None => p
                  end = p').
  { subst p'. destruct p as [? ? ? ? ? ? ? [] ? ?]; done. }
  rewrite Hp'. unfold getPlayer. cbn.
  destruct (clearTimerOf_registry p st) as [-> _].
  rewrite Hl, clearTimerOf_heap, clearTimerOf_timeouts, clearTimerOf_emitted.
  rewrite list_insert_insert_eq, list_lookup_insert_eq by done. done.
Qed.

(** X14: the handler does not remember that a question has been
    answered: while the delayed advance is pending, the same correct
    submission is judged correct again, so two of them add the points of
    the question twice and schedule two advances. *)
Theorem correct_answer_counts_each_time st sid r p q d :
  getPlayer st sid = Some (r, p) ->
  Player.status p = InProgress ->
  currentQuestion p = Some q ->
  Data.questionId d = JNum (Question.id q) ->
  parseInt (Data.answer d) = Some (Question.answer q) ->
  exists p2,
    getPlayer (submitAnswer sid (Some d) (submitAnswer sid (Some d) st)) sid = Some (r, p2)
    /\ Player.score p2 = Player.score p + 2 * Question.points q
    /\ Player.questionIndex p2 = Player.questionIndex p
    /\ Server.timeouts (submitAnswer sid (Some d) (submitAnswer sid (Some d) st))
       = Server.timeouts st ++ [(1000, sid); (1000, sid)].
Proof.
  intros Hg Hs Hq Hid Hans.
  destruct (submitAnswer_correct st sid r p q d Hg Hs Hq Hid Hans) as (Hg1 & Ht1 & _).
  destruct (submitAnswer_correct _ sid r _ q d Hg1 Hs Hq Hid Hans) as (Hg2 & Ht2 & _).
  eexists. split; [exact Hg2 |]. cbn.
  split; [lia |]. split; [done |]. by rewrite Ht2, Ht1, <- app_assoc.
Qed.

Lemma correct_answer_counts_each_time_witness :
  getPlayer joinedState "s1" = Some (O, alice)
  /\ Player.status alice = InProgress
  /\ parseInt (Data.answer rightAnswer) = Some 1
  /\ Server.timeouts (submitAnswer "s1" (Some rightAnswer)
                        (submitAnswer "s1" (Some rightAnswer) joinedState))
     = [(1000, "s1"); (1000, "s1")].
Proof.
  assert (Hg : getPlayer joinedState "s1" = Some (O, alice)) by (vm_compute; reflexivity).
  assert (Hn : parseInt (Data.answer rightAnswer) = Some 1) by (vm_compute; reflexivity).
  split; [exact Hg |]. split; [reflexivity |]. split; [exact Hn |].
  destruct (correct_answer_counts_each_time joinedState "s1" O alice
              (Question.mk 1700000000000 "2X + 3 = 5" 1 10) rightAnswer
              Hg eq_refl eq_refl eq_refl Hn) as (p2 & _ & _ & _ & Ht).
  exact Ht.
Defined.

(** X15: a submission to a running session without a payload object
    throws inside the [try] block and is caught: the feedback is
    [Server Error.] with the answer of the current question, the advance
    is scheduled after 3000 ms, and score, index and timer stay as they
    are. *)
Theorem missing_payload_is_server_error st sid r p :
  reachable st ->
  getPlayer st sid = Some (r, p) ->
  Player.status p = InProgress ->
  exists q,
    currentQuestion p = Some q
    /\ submitAnswer sid None st
       = setTimeout 3000 sid
           (emit (Unicast sid)
              (AnswerFeedback
                 (Feedback.mk false (Some "Server Error.") (Some (Question.answer q)))) st).
Proof.
  intros Hreach Hg Hs.
  destruct (in_progress_has_question p) as [q Hq];
    [by eapply getPlayer_ok; [apply reachable_ok |] | done |].
  exists q. split; [done |].
  unfold submitAnswer. by rewrite Hg, (finished_false p Hs), Hq.
Qed.

Lemma missing_payload_is_server_error_witness :
  reachable joinedState
  /\ getPlayer joinedState "s1" = Some (O, alice)
  /\ Player.status alice = InProgress
  /\ Server.timeouts (submitAnswer "s1" None joinedState) = [(3000, "s1")].
Proof.
  assert (Hg : getPlayer joinedState "s1" = Some (O, alice)) by (vm_compute; reflexivity).
  split; [exact reachable_joinedState |]. split; [exact Hg |]. split; [reflexivity |].
  destruct (missing_payload_is_server_error joinedState "s1" O alice
              reachable_joinedState Hg eq_refl) as (q & _ & ->).
  vm_compute. reflexivity.
Defined.

(** X16: after a submission whose answer parses, on a reachable state,
    the session has no timer: no live interval belongs to its player
    object and the [timer] field is null. *)
Theorem parsed_submission_stops_timer st sid r p d n :
  reachable st ->
  getPlayer st sid = Some (r, p) ->
  Player.status p = InProgress ->
  parseInt (Data.answer d) = Some n ->
  Forall (fun iv => Interval.player iv <> r)
    (Server.intervals (submitAnswer sid (Some d) st))
  /\ exists p',
       getPlayer (submitAnswer sid (Some d) st) sid = Some (r, p')
       /\ Player.timer p' = None.
Proof.
  intros Hreach Hg Hs Hn.
  destruct (in_progress_has_question p) as [q Hq];
    [by eapply getPlayer_ok; [apply reachable_ok |] | done |].
  destruct (reachable_timers st Hreach) as [Htm _].
  pose proof Hg as [Hl Hr]%getPlayer_Some.
  destruct (timers_ok_clear r p st Htm Hr) as [_ Hfree].
  pose proof (lookup_lt_Some _ _ _ Hr) as Hlen.
  destruct (clearTimerOf_registry p st) as [Hreg _].
  unfold submitAnswer. rewrite Hg, (finished_false p Hs).
  unfold submitAnswer_try. rewrite Hn, Hq.
  set (p1 := match Player.timer p with Some _ => Player.set_timer None p | None => p end).
  assert (Hp1 : Player.timer p1 = None) by (subst p1; by destruct (Player.timer p) eqn:E).
  destruct (_ && _); (split; [by apply Forall_forall |]); eexists;
    (split; [| shelve]); unfold getPlayer; cbn; rewrite Hreg, Hl, clearTimerOf_heap.
  - rewrite list_insert_insert_eq, list_lookup_insert_eq by done. done.
  - rewrite list_lookup_insert_eq by done. done.
  Unshelve. all: done.
Qed.

Lemma parsed_submission_stops_timer_witness :
  reachable joinedState
  /\ getPlayer joinedState "s1" = Some (O, alice)
  /\ Player.status alice = InProgress
  /\ parseInt (JStr "0") = Some 0
  /\ Forall (fun iv => Interval.player iv <> O)
       (Server.intervals (submitAnswer "s1" wrongAnswer joinedState)).
Proof.
  assert (Hg : getPlayer joinedState "s1" = Some (O, alice)) by (vm_compute; reflexivity).
  assert (Hn : parseInt (JStr "0") = Some 0) by (vm_compute; reflexivity).
  split; [exact reachable_joinedState |]. split; [exact Hg |]. split; [reflexivity |].
  split; [exact Hn |].
  exact (proj1 (parsed_submission_stops_timer joinedState "s1" O alice
                  (Data.mk JUndefined (JStr "0")) 0
                  reachable_joinedState Hg eq_refl Hn)).
Defined.

(** ** One session at a time *)

(** X17: a second [joinGame] on a socket replaces its session and does
    not stop the timer of the session it replaces: the interval of the old
    player object stays live beside the new one, with another handle, and
    both tick to the same socket. *)
Theorem rejoin_keeps_old_timer st sid playerName env r p k iv :
  reachable st ->
  sid ∈ Server.sockets st ->
  getPlayer st sid = Some (r, p) ->
  Server.intervals st !! k = Some iv ->
  Interval.player iv = r ->
  exists p',
    getPlayer (joinGame sid playerName env st) sid = Some (length (Server.heap st), p')
    /\ length (Server.heap st) <> r
    /\ Server.heap (joinGame sid playerName env st) !! r = Some p
    /\ Server.intervals (joinGame sid playerName env st) !! k = Some iv
    /\ Server.intervals (joinGame sid playerName env st) !! length (Server.intervals st)
       = Some (Interval.mk (Server.nextHandle st) (length (Server.heap st)) sid 60)
    /\ Interval.handle iv <> Server.nextHandle st.
Proof.
  intros Hreach Hsock Hg Hk Hpl.
  destruct (joinGame_state sid playerName env st Hsock) as (Hheap & Hreg & Hiv & _).
  pose proof Hg as [_ Hr]%getPlayer_Some.
  pose proof (lookup_lt_Some _ _ _ Hr) as Hlen.
  destruct (reachable_handles st Hreach) as [_ Hlt].
  eexists. split.
  { unfold getPlayer. rewrite Hreg, Hheap, registry_set_lookup.
    rewrite lookup_app_r by done. by rewrite Nat.sub_diag. }
  split; [lia |].
  split; [rewrite Hheap; by apply lookup_app_l_Some |].
  rewrite Hiv. split; [by apply lookup_app_l_Some |].
  split; [rewrite lookup_app_r by done; by rewrite Nat.sub_diag |].
  eapply Forall_lookup_1 in Hlt; [| exact Hk]. cbn in Hlt. lia.
Qed.

Lemma rejoin_keeps_old_timer_witness :
  reachable joinedState
  /\ "s1" ∈ Server.sockets joinedState
  /\ getPlayer joinedState "s1" = Some (O, alice)
  /\ Server.intervals joinedState !! O = Some (Interval.mk O O "s1" 60)
  /\ Server.intervals (joinGame "s1" (JStr "Alice") env0 joinedState) !! O
     = Some (Interval.mk O O "s1" 60).
Proof.
  assert (Hs : "s1" ∈ Server.sockets joinedState).
  { change (Server.sockets joinedState) with ["s1"]. by left. }
  assert (Hg : getPlayer joinedState "s1" = Some (O, alice)) by (vm_compute; reflexivity).
  assert (Hk : Server.intervals joinedState !! O = Some (Interval.mk O O "s1" 60))
    by (vm_compute; reflexivity).
  split; [exact reachable_joinedState |]. split; [exact Hs |]. split; [exact Hg |].
  split; [exact Hk |].
  destruct (rejoin_keeps_old_timer joinedState "s1" (JStr "Alice") env0 O alice O _
              reachable_joinedState Hs Hg Hk eq_refl) as (p' & _ & _ & _ & Hiv & _).
  exact Hiv.
Defined.

Lemma startQuestionTimer_other sid now st r' :
  registry_lookup sid (Server.activePlayers st) <> Some r' ->
  Server.heap (startQuestionTimer sid now st) !! r' = Server.heap st !! r'.
Proof.
  intros Hne. unfold startQuestionTimer.
  destruct (getPlayer st sid) as [[r p] |] eqn:Hg; [| done].
  apply getPlayer_Some in Hg as [Hl _].
  destruct (Player.finished p); [done |].
  destruct (negb _); cbn; rewrite clearTimerOf_heap; [done |].
  apply list_lookup_insert_ne. congruence.
Qed.

(** X18: the handlers of one socket write to the player object of that
    socket only: a submission, an advance or a timer start for [sid]
    leaves every other player object of the heap as it was, and the
    registry too. *)
Theorem handlers_touch_one_player st sid r' data now :
  registry_lookup sid (Server.activePlayers st) <> Some r' ->
  Server.heap (submitAnswer sid data st) !! r' = Server.heap st !! r'
  /\ Server.heap (moveToNextQuestion sid now st) !! r' = Server.heap st !! r'
  /\ Server.heap (startQuestionTimer sid now st) !! r' = Server.heap st !! r'
  /\ Server.activePlayers (submitAnswer sid data st) = Server.activePlayers st
  /\ Server.activePlayers (moveToNextQuestion sid now st) = Server.activePlayers st.
Proof.
  intros Hne.
  split; [| split; [| split; [by apply startQuestionTimer_other |
    split; [apply submitAnswer_registry | apply moveToNextQuestion_registry]]]].
  - unfold submitAnswer.
    destruct (getPlayer st sid) as [[r p] |] eqn:Hg; [| done].
    apply getPlayer_Some in Hg as [Hl _].
    assert (r <> r') by congruence.
    destruct (Player.finished p); [done |].
    unfold submitAnswer_try.
    destruct data as [d |]; [| done].
    destruct (parseInt _), (currentQuestion p); try done.
    destruct (_ && _); cbn; rewrite clearTimerOf_heap, !list_lookup_insert_ne; done.
  - unfold moveToNextQuestion.
    destruct (getPlayer st sid) as [[r p] |] eqn:Hg; [| done].
    apply getPlayer_Some in Hg as [Hl _].
    assert (r <> r') by congruence.
    destruct (_ <? MAX_QUESTIONS).
    + rewrite broadcastLeaderboard_heap, startQuestionTimer_other.
      * cbn. by rewrite clearTimerOf_heap, list_lookup_insert_ne.
      * cbn. by destruct (clearTimerOf_registry p st) as [-> _].
    + rewrite checkAndNotifyWinners_heap, broadcastLeaderboard_heap. cbn.
      by rewrite clearTimerOf_heap, !list_lookup_insert_ne.
Qed.

Lemma handlers_touch_one_player_witness :
  registry_lookup "s1" (Server.activePlayers twoJoinedState) <> Some 1%nat
  /\ Server.heap (submitAnswer "s1" (Some rightAnswer) twoJoinedState) !! 1%nat
     = Server.heap twoJoinedState !! 1%nat.
Proof.
  assert (H : registry_lookup "s1" (Server.activePlayers twoJoinedState) <> Some 1%nat).
  { change (registry_lookup "s1" (Server.activePlayers twoJoinedState)) with (Some O).
    discriminate. }
  split; [exact H |].
  exact (proj1 (handlers_touch_one_player twoJoinedState "s1" 1%nat (Some rightAnswer) 0 H)).
Defined.

(** ** Timers of different sessions *)

Lemma reachable_twoJoinedState : reachable twoJoinedState.
Proof.
  exists (joined ++ [Connection "s2"; JoinGame "s2" (JStr "Bob") env0]).
  vm_compute. reflexivity.
Qed.

Lemma handles_held_keep h n r p p' :
  handles_held h n -> h !! r = Some p ->
  Player.timer p' = None \/ Player.timer p' = Player.timer p ->
  handles_held (<[r := p']> h) n.
Proof.
  intros [Hlt Hinj] Hr Ht.
  assert (Hlen : (r < length h)%nat) by (by eapply lookup_lt_Some).
  assert (Hback : forall r0 p0 k,
             <[r := p']> h !! r0 = Some p0 -> Player.timer p0 = Some k ->
             exists q, h !! r0 = Some q /\ Player.timer q = Some k).
  { intros r0 p0 k Hp0 Hk. destruct (decide (r0 = r)) as [-> | Hne].
    - rewrite list_lookup_insert_eq in Hp0 by done. injection Hp0 as <-.
      exists p. split; [done |]. destruct Ht as [Ht | Ht]; congruence.
    - rewrite list_lookup_insert_ne in Hp0 by done. by exists p0. }
  split.
  - intros r0 p0 k Hp0 Hk. destruct (Hback r0 p0 k Hp0 Hk) as (q & Hq & Hqk). eauto.
  - intros r1 r2 p1 p2 k Hp1 Hp2 Hk1 Hk2.
    destruct (Hback r1 p1 k Hp1 Hk1) as (q1 & Hq1 & Hqk1).
    destruct (Hback r2 p2 k Hp2 Hk2) as (q2 & Hq2 & Hqk2). eauto.
Qed.

Lemma handles_held_fresh h n r p p' :
  handles_held h n -> h !! r = Some p -> Player.timer p' = Some n ->
  handles_held (<[r := p']> h) (S n).
Proof.
  intros [Hlt Hinj] Hr Ht.
  assert (Hlen : (r < length h)%nat) by (by eapply lookup_lt_Some).
  assert (Hback : forall r0 p0 k,
             <[r := p']> h !! r0 = Some p0 -> Player.timer p0 = Some k ->
             (r0 = r /\ k = n) \/ (r0 <> r /\ h !! r0 = Some p0 /\ (k < n)%nat)).
  { intros r0 p0 k Hp0 Hk. destruct (decide (r0 = r)) as [-> | Hne].
    - rewrite list_lookup_insert_eq in Hp0 by done. injection Hp0 as <-.
      left. split; [done | congruence].
    - rewrite list_lookup_insert_ne in Hp0 by done. right. eauto. }
  split.
  - intros r0 p0 k Hp0 Hk. destruct (Hback r0 p0 k Hp0 Hk) as [[_ ?] | (_ & _ & ?)]; lia.
  - intros r1 r2 p1 p2 k Hp1 Hp2 Hk1 Hk2.
    destruct (Hback r1 p1 k Hp1 Hk1) as [[-> ?] | (? & Hq1 & ?)],
             (Hback r2 p2 k Hp2 Hk2) as [[-> ?] | (? & Hq2 & ?)]; try done; try lia.
    eauto.
Qed.

Lemma handles_held_app h n p :
  handles_held h n -> Player.timer p = None -> handles_held (h ++ [p]) n.
Proof.
  intros [Hlt Hinj] Ht.
  assert (Hback : forall r0 p0 k,
             (h ++ [p]) !! r0 = Some p0 -> Player.timer p0 = Some k -> h !! r0 = Some p0).
  { intros r0 p0 k Hp0 Hk. apply lookup_app_Some in Hp0 as [? | [_ Hp0]]; [done |].
    apply list_lookup_singleton_Some in Hp0 as [_ <-]. congruence. }
  split.
  - intros r0 p0 k Hp0 Hk. eauto.
  - intros r1 r2 p1 p2 k Hp1 Hp2 Hk1 Hk2. eauto.
Qed.

Ltac skip_fields :=
  repeat match goal with
    | |- timer_fields_ok (setTimeout _ _ ?s) => change (timer_fields_ok s)
    | |- timer_fields_ok (emit _ _ ?s) => change (timer_fields_ok s)
    | |- timer_fields_ok (broadcastLeaderboard ?s) => change (timer_fields_ok s)
    | |- timer_fields_ok (Server.set_activePlayers _ ?s) => change (timer_fields_ok s)
    | |- timer_fields_ok (Server.set_sockets _ ?s) => change (timer_fields_ok s)
    | |- timer_fields_ok (Server.set_timeouts _ ?s) => change (timer_fields_ok s)
    | |- timer_fields_ok (Server.set_intervals _ ?s) => change (timer_fields_ok s)
    | |- timer_fields_ok (Server.set_crashed _ ?s) => change (timer_fields_ok s)
    end.

Lemma clearTimerOf_fields p st : timer_fields_ok st -> timer_fields_ok (clearTimerOf p st).
Proof. unfold clearTimerOf. by destruct (Player.timer p). Qed.

Lemma checkAndNotifyWinners_fields st :
  timer_fields_ok st -> timer_fields_ok (checkAndNotifyWinners st).
Proof. unfold checkAndNotifyWinners. by destruct (0 <? _)%nat. Qed.

Lemma setPlayer_fields r p p' st :
  timer_fields_ok st -> Server.heap st !! r = Some p ->
  Player.timer p' = None \/ Player.timer p' = Player.timer p ->
  timer_fields_ok (setPlayer r p' st).
Proof. intros. by eapply handles_held_keep. Qed.

Lemma startQuestionTimer_fields sid now st :
  timer_fields_ok st -> timer_fields_ok (startQuestionTimer sid now st).
Proof.
  intros Hok. unfold startQuestionTimer.
  destruct (getPlayer st sid) as [[r p] |] eqn:Hg; [| done].
  apply getPlayer_Some in Hg as [_ Hr].
  destruct (Player.finished p); [done |].
  pose proof (clearTimerOf_fields p st Hok) as Hok1.
  destruct (negb _); [done |].
  unfold timer_fields_ok. cbn. rewrite clearTimerOf_heap, clearTimerOf_nextHandle.
  by eapply handles_held_fresh.
Qed.

Lemma moveToNextQuestion_fields sid now st :
  timer_fields_ok st -> timer_fields_ok (moveToNextQuestion sid now st).
Proof.
  intros Hok. unfold moveToNextQuestion.
  destruct (getPlayer st sid) as [[r p] |] eqn:Hg; [| done].
  apply getPlayer_Some in Hg as [_ Hr].
  pose proof (clearTimerOf_fields p st Hok) as Hok1.
  assert (Hr1 : Server.heap (clearTimerOf p st) !! r = Some p)
    by (by rewrite clearTimerOf_heap).
  set (p1 := match Player.timer p with Some _ => Player.set_timer None p | None => p end).
  assert (Hp1 : Player.timer p1 = None \/ Player.timer p1 = Player.timer p)
    by (subst p1; destruct (Player.timer p) eqn:E; [by left | by right]).
  destruct (_ <? MAX_QUESTIONS).
  - skip_fields. apply startQuestionTimer_fields. skip_fields.
    by apply (setPlayer_fields r p).
  - apply checkAndNotifyWinners_fields. skip_fields.
    unfold timer_fields_ok, setPlayer. cbn. rewrite list_insert_insert_eq.
    by apply (handles_held_keep _ _ r p).
Qed.

Lemma joinGame_fields sid playerName env st :
  timer_fields_ok st -> timer_fields_ok (joinGame sid playerName env st).
Proof.
  intros Hok. unfold joinGame.
  apply checkAndNotifyWinners_fields. skip_fields.
  apply startQuestionTimer_fields. skip_fields.
  by apply handles_held_app.
Qed.

Lemma submitAnswer_fields sid data st :
  timer_fields_ok st -> timer_fields_ok (submitAnswer sid data st).
Proof.
  intros Hok. unfold submitAnswer.
  destruct (getPlayer st sid) as [[r p] |] eqn:Hg; [| done].
  apply getPlayer_Some in Hg as [_ Hr].
  destruct (Player.finished p); [done |].
  unfold submitAnswer_try.
  destruct data as [d |]; [| done].
  destruct (parseInt _) as [n |], (currentQuestion p) as [q |]; try done.
  pose proof (clearTimerOf_fields p st Hok) as Hok1.
  set (p1 := match Player.timer p with Some _ => Player.set_timer None p | None => p end).
  assert (Hp1 : Player.timer p1 = None \/ Player.timer p1 = Player.timer p)
    by (subst p1; destruct (Player.timer p) eqn:E; [by left | by right]).
  destruct (_ && _); skip_fields.
  - unfold timer_fields_ok, setPlayer. cbn. rewrite list_insert_insert_eq.
    apply (handles_held_keep _ _ r p); [done | by rewrite clearTimerOf_heap | done].
  - apply (setPlayer_fields r p); [done | by rewrite clearTimerOf_heap | done].
Qed.

Lemma intervalCallback_fields h st :
  timer_fields_ok st -> timer_fields_ok (intervalCallback h st).
Proof.
  intros Hok. unfold intervalCallback.
  destruct (list_find _ _) as [[k iv] |]; [| done].
  destruct (_ <=? 0); [| done]. cbn [Interval.player Interval.socket].
  change (Server.heap (emit _ _ (Server.set_intervals _ st))) with (Server.heap st).
  destruct (Server.heap st !! Interval.player iv) as [p |] eqn:Hp; [| done].
  assert (H : timer_fields_ok
                (setPlayer (Interval.player iv) (Player.set_timer None p) st))
    by (apply (setPlayer_fields _ p); [done | done | by left]).
  destruct (currentQuestion _); skip_fields;
    unfold timer_fields_ok, setPlayer, clearTimerOf; by destruct (Player.timer p).
Qed.

Lemma disconnect_fields sid st : timer_fields_ok st -> timer_fields_ok (disconnect sid st).
Proof.
  intros Hok. unfold disconnect.
  apply checkAndNotifyWinners_fields. skip_fields.
  destruct (getPlayer st sid) as [[r p] |]; [by apply clearTimerOf_fields | done].
Qed.

Lemma step_fields i st st' : timer_fields_ok st -> step i st = Some st' -> timer_fields_ok st'.
Proof.
  intros Hok. unfold step. destruct (Server.crashed st); [done |].
  destruct i as [sid | sid nm env | sid data | sid | h | k now].
  - case_bool_decide; [done |]. by intros [= <-].
  - destruct (_ && _); [| done]. intros [= <-]. by apply joinGame_fields.
  - case_bool_decide; [| done]. intros [= <-]. by apply submitAnswer_fields.
  - case_bool_decide; [| done]. intros [= <-]. by apply disconnect_fields.
  - destruct (list_find _ _); [| done]. intros [= <-]. by apply intervalCallback_fields.
  - destruct (Server.timeouts st !! k) as [[d sid] |]; [| done].
    intros [= <-]. by apply moveToNextQuestion_fields.
Qed.

Lemma reachable_fields st : reachable st -> timer_fields_ok st.
Proof.
  intros [tr Hrun]. revert Hrun.
  assert (H0 : timer_fields_ok Server.init) by (split; intros; done).
  revert H0. generalize Server.init. induction tr as [| i tr IH]; intros s Hs; cbn.
  - by intros [= <-].
  - destruct (step i s) as [s1 |] eqn:Hstep; [| done].
    apply IH. by eapply step_fields.
Qed.

(** Stopping the timer of a player stops no interval of another one. *)
Lemma clearTimerOf_other st r p iv :
  reachable st -> Server.heap st !! r = Some p ->
  iv ∈ Server.intervals st -> Interval.player iv <> r ->
  iv ∈ Server.intervals (clearTimerOf p st).
Proof.
  intros Hreach Hr Hiv Hne. unfold clearTimerOf.
  destruct (Player.timer p) as [h |] eqn:Ht; [| done].
  cbn. apply list_elem_of_filter. split; [| done]. intros Heq.
  destruct (reachable_timers st Hreach) as [Htm _].
  destruct (Htm iv Hiv) as (p2 & Hp2 & Ht2 & _).
  destruct (reachable_fields st Hreach) as [_ Hinj].
  apply Hne. eapply (Hinj _ _ p2 p h); [done | done | congruence | done].
Qed.

(** X19: the timers of different sessions do not touch: when a handler
    of one socket runs on a reachable state (a submission, an advance,
    its disconnect), every interval of another player object stays
    live. *)
Theorem other_timers_keep_running st sid r p iv data now :
  reachable st ->
  getPlayer st sid = Some (r, p) ->
  iv ∈ Server.intervals st ->
  Interval.player iv <> r ->
  iv ∈ Server.intervals (submitAnswer sid data st)
  /\ iv ∈ Server.intervals (moveToNextQuestion sid now st)
  /\ iv ∈ Server.intervals (disconnect sid st).
Proof.
  intros Hreach Hg Hiv Hne.
  pose proof Hg as [_ Hr]%getPlayer_Some.
  pose proof (clearTimerOf_other st r p iv Hreach Hr Hiv Hne) as Hkeep.
  split; [| split].
  - unfold submitAnswer. rewrite Hg. destruct (Player.finished p); [done |].
    unfold submitAnswer_try. destruct data as [d |]; [| done].
    destruct (parseInt _), (currentQuestion p); try done. by destruct (_ && _).
  - unfold moveToNextQuestion. rewrite Hg.
    destruct (_ <? MAX_QUESTIONS).
    + cbn [broadcastLeaderboard emit Server.intervals Server.set_emitted].
      set (p2 := Player.set_questionIndex _ _).
      set (st2 := emit _ _ (setPlayer r p2 (clearTimerOf p st))).
      assert (Hiv2 : iv ∈ Server.intervals st2) by done.
      unfold startQuestionTimer.
      destruct (getPlayer st2 sid) as [[r2 q] |] eqn:Hg2; [| done].
      destruct (Player.finished q); [done |].
      pose proof Hg2 as [Hl2 Hq]%getPlayer_Some.
      assert (r2 = r /\ Player.timer q = None) as [-> Hqt].
      { apply getPlayer_Some in Hg as [Hl _].
        subst st2. cbn in Hl2, Hq.
        destruct (clearTimerOf_registry p st) as [Hreg _]. rewrite Hreg, Hl in Hl2.
        injection Hl2 as <-. split; [done |].
        rewrite list_lookup_insert_eq in Hq
          by (rewrite clearTimerOf_heap; by eapply lookup_lt_Some).
        injection Hq as <-. subst p2. by destruct (Player.timer p) eqn:E. }
      unfold clearTimerOf. rewrite Hqt.
      destruct (negb _); [done |]. cbn. apply elem_of_app. by left.
    + unfold checkAndNotifyWinners. by destruct (0 <? _)%nat.
  - destruct (disconnect_state sid st) as (_ & _ & _ & _ & _ & ->). by rewrite Hg.
Qed.

Lemma other_timers_keep_running_witness :
  reachable twoJoinedState
  /\ getPlayer twoJoinedState "s1" = Some (O, alice)
  /\ Interval.mk 1%nat 1%nat "s2" 60 ∈ Server.intervals twoJoinedState
  /\ Interval.mk 1%nat 1%nat "s2" 60
     ∈ Server.intervals (submitAnswer "s1" wrongAnswer twoJoinedState).
Proof.
  assert (Hg : getPlayer twoJoinedState "s1" = Some (O, alice)) by (vm_compute; reflexivity).
  assert (Hiv : Interval.mk 1%nat 1%nat "s2" 60 ∈ Server.intervals twoJoinedState).
  { change (Server.intervals twoJoinedState)
      with [Interval.mk O O "s1" 60; Interval.mk 1%nat 1%nat "s2" 60].
    right. by left. }
  split; [exact reachable_twoJoinedState |]. split; [exact Hg |]. split; [exact Hiv |].
  exact (proj1 (other_timers_keep_running twoJoinedState "s1" O alice _ wrongAnswer 0
                  reachable_twoJoinedState Hg Hiv ltac:(discriminate))).
Defined.

(** ** The course of a game *)

(** X20: over any run, no player object's index goes back and no
    finished player object runs again. *)
Theorem progress_is_one_way tr st st' r p :
  run tr st = Some st' ->
  Server.heap st !! r = Some p ->
  exists p',
    Server.heap st' !! r = Some p'
    /\ Player.questionIndex p <= Player.questionIndex p'
    /\ (Player.status p = Finished -> Player.status p' = Finished).
Proof.
  intros Hrun Hr. destruct (run_advances tr st st' Hrun r p Hr) as (p' & Hp' & Hi & Hs).
  by exists p'.
Qed.

Lemma progress_is_one_way_witness :
  run round joinedState = Some secondQuestionState
  /\ Server.heap joinedState !! O = Some alice
  /\ exists p', Server.heap secondQuestionState !! O = Some p'
                /\ 0 <= Player.questionIndex p'.
Proof.
  assert (Hrun : run round joinedState = Some secondQuestionState)
    by (vm_compute; reflexivity).
  assert (Hr : Server.heap joinedState !! O = Some alice) by (vm_compute; reflexivity).
  split; [exact Hrun |]. split; [exact Hr |].
  destruct (progress_is_one_way round joinedState secondQuestionState O alice Hrun Hr)
    as (p' & Hp' & Hi & _).
  exists p'. split; [exact Hp' | exact Hi].
Defined.

(** X21: in every reachable state a running session is on one of its ten
    questions (its index is between 0 and 9 and the question is there),
    and a finished session is past them: its index is at least 10 and no
    interval of its player object is live. *)
Theorem session_state_is_consistent st sid r p :
  reachable st ->
  getPlayer st sid = Some (r, p) ->
  length (Player.questionSet p) = 10%nat
  /\ (Player.status p = InProgress ->
      0 <= Player.questionIndex p < 10
      /\ exists q, Player.questionSet p !! Z.to_nat (Player.questionIndex p) = Some q
                   /\ currentQuestion p = Some q)
  /\ (Player.status p = Finished ->
      10 <= Player.questionIndex p
      /\ currentQuestion p = None
      /\ Forall (fun iv => Interval.player iv <> r) (Server.intervals st)).
Proof.
  intros Hreach Hg.
  pose proof (getPlayer_ok _ _ _ _ (reachable_ok st Hreach) Hg) as Hok.
  pose proof Hok as (H0 & Hlen & Hfin).
  pose proof Hg as [_ Hr]%getPlayer_Some.
  split; [exact Hlen |]. split.
  - intros Hs. destruct (in_progress_has_question p Hok Hs) as [q Hq].
    assert (~ MAX_QUESTIONS <= Player.questionIndex p) by (rewrite <- Hfin; congruence).
    unfold MAX_QUESTIONS in *. split; [lia |]. exists q. split; [| done].
    unfold currentQuestion, index in Hq.
    destruct (_ <? 0) eqn:E; [done | exact Hq].
  - intros Hs. pose proof (proj1 Hfin Hs) as Hge. unfold MAX_QUESTIONS in Hge.
    split; [done |]. split.
    + unfold currentQuestion, index. destruct (_ <? 0); [done |].
      apply lookup_ge_None. rewrite Hlen. change (Z.to_nat MAX_QUESTIONS) with 10%nat. lia.
    + destruct (reachable_timers st Hreach) as [Htm _].
      apply Forall_forall. intros iv Hiv Heq.
      destruct (Htm iv Hiv) as (p' & Hp' & _ & Hs').
      rewrite Heq, Hr in Hp'. injection Hp' as <-. congruence.
Qed.

Lemma session_state_is_consistent_witness :
  reachable finishedState
  /\ getPlayer finishedState "s1" = Some (O, aliceFinished)
  /\ length (Player.questionSet aliceFinished) = 10%nat.
Proof.
  assert (Hreach : reachable finishedState)
    by (exists finishedWithPendingAdvance; vm_compute; reflexivity).
  assert (Hg : getPlayer finishedState "s1" = Some (O, aliceFinished))
    by (vm_compute; reflexivity).
  split; [exact Hreach |]. split; [exact Hg |].
  exact (proj1 (session_state_is_consistent finishedState "s1" O aliceFinished Hreach Hg)).
Defined.



Lemma players_frame st st' :
  Server.activePlayers st' = Server.activePlayers st ->
  Server.heap st' = Server.heap st -> players st' = players st.
Proof. unfold players. by intros -> ->. Qed.

(** X23: the advance of a running session that is not on its last
    question moves it to the next one: the index goes up by one, score
    and status stay, the socket gets the next question with its 1-based
    number and the timer at 60, a new interval becomes the timer of the
    session, and the leaderboard goes out to all. *)
Theorem advance_sends_next_question st sid r p now :
  reachable st ->
  getPlayer st sid = Some (r, p) ->
  Player.status p = InProgress ->
  Player.questionIndex p < 9 ->
  exists q p',
    Player.questionSet p !! Z.to_nat (Player.questionIndex p + 1) = Some q
    /\ getPlayer (moveToNextQuestion sid now st) sid = Some (r, p')
    /\ Player.questionIndex p' = Player.questionIndex p + 1
    /\ Player.status p' = InProgress
    /\ Player.score p' = Player.score p
    /\ Player.timer p' = Some (Server.nextHandle st)
    /\ Interval.mk (Server.nextHandle st) r sid 60
       ∈ Server.intervals (moveToNextQuestion sid now st)
    /\ Server.emitted (moveToNextQuestion sid now st)
       = Server.emitted st
         ++ [(Unicast sid,
              NewQuestion
                (Question.toObject q
                 ++ [("index", JNum (Player.questionIndex p + 2)); ("total", JNum 10)]));
             (Unicast sid, UpdateTimer 60);
             (Broadcast,
              UpdateLeaderboard
                (map leaderboardEntry (rank (players (moveToNextQuestion sid now st)))));
             (Broadcast, PlayerCount (length (players (moveToNextQuestion sid now st))))].
Proof.
  intros Hreach Hg Hs Hidx.
  pose proof (getPlayer_ok _ _ _ _ (reachable_ok st Hreach) Hg) as (H0 & Hlen & _).
  change (Z.to_nat MAX_QUESTIONS) with 10%nat in Hlen.
  pose proof Hg as [Hl Hr]%getPlayer_Some.
  destruct (reachable_registry st Hreach) as (_ & _ & He).
  eapply Forall_forall in He; [| exact (registry_lookup_elem _ _ _ Hl)].
  cbn in He. destruct He as [Hin _].
  pose proof (lookup_lt_Some _ _ _ Hr) as Hrl.
  destruct (lookup_lt_is_Some_2 (Player.questionSet p) (Z.to_nat (Player.questionIndex p + 1)))
    as [q Hq]; [rewrite Hlen; lia |].
  destruct (clearTimerOf_registry p st) as [Hreg Hsk].
  unfold moveToNextQuestion. rewrite Hg.
  set (p1 := match Player.timer p with Some _ => Player.set_timer None p | None => p end).
  assert (Hp1 : Player.questionIndex p1 = Player.questionIndex p
                /\ Player.questionSet p1 = Player.questionSet p
                /\ Player.status p1 = InProgress
                /\ Player.score p1 = Player.score p
                /\ Player.timer p1 = None)
    by (subst p1; by destruct (Player.timer p) eqn:E).
  destruct Hp1 as (Hi1 & Hq1 & Hs1 & Hsc1 & Ht1).
  set (p2 := Player.set_questionIndex (Player.questionIndex p1 + 1) p1).
  cbn [Player.questionIndex Player.set_questionIndex p2].
  destruct (_ <? MAX_QUESTIONS) eqn:Hc;
    [| apply Z.ltb_ge in Hc; unfold MAX_QUESTIONS in Hc; lia].
  assert (Hcq : currentQuestion p2 = Some q).
  { unfold currentQuestion, index, p2. cbn. rewrite Hi1, Hq1.
    destruct (_ <? 0) eqn:E; [apply Z.ltb_lt in E; lia | exact Hq]. }
  rewrite Hcq.
  set (st2 := emit _ _ (setPlayer r p2 (clearTimerOf p st))).
  assert (Hg2 : getPlayer st2 sid = Some (r, p2)).
  { unfold getPlayer, st2. cbn. rewrite Hreg, Hl, clearTimerOf_heap.
    by rewrite list_lookup_insert_eq. }
  rewrite (startQuestionTimer_running sid now st2 r p2 Hg2 Hs1)
    by (subst st2; cbn; by rewrite Hsk).
  assert (Hc2 : clearTimerOf p2 st2 = st2) by (unfold clearTimerOf, p2; cbn; by rewrite Ht1).
  rewrite Hc2.
  assert (Hnh : Server.nextHandle st2 = Server.nextHandle st)
    by (subst st2; cbn; apply clearTimerOf_nextHandle).
  rewrite Hnh.
  set (p3 := Player.set_timer _ _). set (st3 := setPlayer r p3 _).
  assert (Hg3 : getPlayer (broadcastLeaderboard st3) sid = Some (r, p3)).
  { unfold getPlayer, st3, st2. cbn. rewrite Hreg, Hl, clearTimerOf_heap.
    by rewrite list_insert_insert_eq, list_lookup_insert_eq. }
  exists q, p3. split; [done |]. split; [exact Hg3 |].
  split; [subst p3 p2; cbn; lia |]. split; [done |]. split; [done |]. split; [done |].
  split.
  { subst st3. cbn. apply elem_of_app. right. by left. }
  subst st3 st2. cbn. rewrite clearTimerOf_emitted, length_map, length_rank, <- !app_assoc.
  cbn. rewrite Hi1.
  replace (Player.questionIndex p + 1 + 1) with (Player.questionIndex p + 2) by lia.
  reflexivity.
Qed.

Lemma advance_sends_next_question_witness :
  reachable submittedState
  /\ getPlayer submittedState "s1" = Some (O, Player.set_timer None alice)
  /\ Player.questionIndex (Player.set_timer None alice) < 9
  /\ exists p', getPlayer (moveToNextQuestion "s1" 1700000005000 submittedState) "s1"
                = Some (O, p')
                /\ Player.questionIndex p' = 1.
Proof.
  assert (Hreach : reachable submittedState)
    by (exists (joined ++ [SubmitAnswer "s1" wrongAnswer]); vm_compute; reflexivity).
  assert (Hg : getPlayer submittedState "s1" = Some (O, Player.set_timer None alice))
    by (vm_compute; reflexivity).
  assert (Hi : Player.questionIndex (Player.set_timer None alice) < 9) by (cbn; lia).
  split; [exact Hreach |]. split; [exact Hg |]. split; [exact Hi |].
  destruct (advance_sends_next_question submittedState "s1" O _ 1700000005000
              Hreach Hg eq_refl Hi) as (q & p' & _ & Hg' & Hi' & _).
  exists p'. split; [exact Hg' | exact Hi'].
Defined.

(** X24: the advance of a running session on its last question ends the
    game: the session becomes finished with index 10 and the elapsed time
    since it joined, keeps its score and has no timer; the socket gets
    [gameOver] with the score and the formatted time, then the leaderboard
    and the player count go out to all, then a winner notification with
    one to three winners. *)
Theorem last_advance_ends_game st sid r p now :
  reachable st ->
  getPlayer st sid = Some (r, p) ->
  Player.status p = InProgress ->
  Player.questionIndex p = 9 ->
  exists p',
    getPlayer (moveToNextQuestion sid now st) sid = Some (r, p')
    /\ Player.status p' = Finished
    /\ Player.questionIndex p' = 10
    /\ Player.totalTimeMs p' = now - Player.gameStartTime p
    /\ Player.score p' = Player.score p
    /\ Player.timer p' = None
    /\ Forall (fun iv => Interval.player iv <> r)
         (Server.intervals (moveToNextQuestion sid now st))
    /\ (1 <= length (winners (players (moveToNextQuestion sid now st))) <= 3)%nat
    /\ Server.emitted (moveToNextQuestion sid now st)
       = Server.emitted st
         ++ [(Unicast sid,
              GameOver (Player.score p) (formatTime (now - Player.gameStartTime p)));
             (Broadcast,
              UpdateLeaderboard
                (map leaderboardEntry (rank (players (moveToNextQuestion sid now st)))));
             (Broadcast, PlayerCount (length (players (moveToNextQuestion sid now st))));
             (Broadcast,
              WinnerNotification (winners (players (moveToNextQuestion sid now st))))].
Proof.
  intros Hreach Hg Hs Hidx.
  pose proof Hg as [Hl Hr]%getPlayer_Some.
  pose proof (lookup_lt_Some _ _ _ Hr) as Hrl.
  destruct (reachable_timers st Hreach) as [Htm _].
  pose proof (moveToNextQuestion_timers sid now st Htm) as Htm'.
  destruct (clearTimerOf_registry p st) as [Hreg Hsk].
  revert Htm'. unfold moveToNextQuestion. rewrite Hg.
  set (p1 := match Player.timer p with Some _ => Player.set_timer None p | None => p end).
  assert (Hp1 : Player.questionIndex p1 = Player.questionIndex p
                /\ Player.gameStartTime p1 = Player.gameStartTime p
                /\ Player.score p1 = Player.score p
                /\ Player.timer p1 = None)
    by (subst p1; by destruct (Player.timer p) eqn:E).
  destruct Hp1 as (Hi1 & Hgs1 & Hsc1 & Ht1).
  cbn [Player.questionIndex Player.set_questionIndex].
  destruct (_ <? MAX_QUESTIONS) eqn:Hc;
    [apply Z.ltb_lt in Hc; unfold MAX_QUESTIONS in Hc; lia |].
  set (p3 := Player.set_totalTimeMs _ _).
  set (st3 := emit _ _ (setPlayer r p3 _)).
  assert (Hg3 : getPlayer (checkAndNotifyWinners (broadcastLeaderboard st3)) sid
                = Some (r, p3)).
  { unfold getPlayer. rewrite checkAndNotifyWinners_activePlayers, checkAndNotifyWinners_heap.
    unfold st3. cbn. rewrite Hreg, Hl, clearTimerOf_heap.
    by rewrite list_insert_insert_eq, list_lookup_insert_eq. }
  assert (Hpl : players (checkAndNotifyWinners (broadcastLeaderboard st3)) = players st3).
  { apply players_frame;
      [by rewrite checkAndNotifyWinners_activePlayers | by rewrite checkAndNotifyWinners_heap]. }
  assert (Hin3 : p3 ∈ players st3) by (rewrite <- Hpl; exact (players_elem _ _ _ _ Hg3)).
  assert (Hw : (1 <= length (winners (players st3)) <= 3)%nat)
    by exact (winners_length _ _ Hin3 eq_refl).
  intros Htm'. exists p3. split; [exact Hg3 |].
  split; [done |]. split; [subst p3; cbn; lia |].
  split; [subst p3; cbn; by rewrite Hgs1 |]. split; [done |]. split; [done |].
  split.
  { apply Forall_forall. intros iv Hiv Heq.
    destruct (Htm' iv Hiv) as (p' & Hp' & _ & Hs').
    pose proof Hg3 as [_ Hr3]%getPlayer_Some.
    rewrite Heq, Hr3 in Hp'. by injection Hp' as <-. }
  rewrite Hpl. split; [exact Hw |].
  unfold checkAndNotifyWinners.
  change (players (broadcastLeaderboard st3)) with (players st3).
  destruct (0 <? _)%nat eqn:Hc'; [| apply Nat.ltb_ge in Hc'; lia].
  subst st3. cbn. rewrite clearTimerOf_emitted, length_map, length_rank, <- !app_assoc.
  cbn. by rewrite Hsc1, Hgs1.
Qed.

Lemma last_advance_ends_game_witness :
  reachable lastQuestionState
  /\ getPlayer lastQuestionState "s1" = Some (O, aliceLastQuestion)
  /\ exists p', getPlayer (moveToNextQuestion "s1" 1700000050000 lastQuestionState) "s1"
                = Some (O, p')
                /\ Player.status p' = Finished
                /\ Player.totalTimeMs p' = 50000.
Proof.
  assert (Hreach : reachable lastQuestionState)
    by (exists lastQuestion; vm_compute; reflexivity).
  assert (Hg : getPlayer lastQuestionState "s1" = Some (O, aliceLastQuestion))
    by (vm_compute; reflexivity).
  split; [exact Hreach |]. split; [exact Hg |].
  destruct (last_advance_ends_game lastQuestionState "s1" O _ 1700000050000
              Hreach Hg eq_refl eq_refl) as (p' & Hg' & Hs' & _ & Ht' & _).
  exists p'. split; [exact Hg' |]. split; [exact Hs' | exact Ht'].
Defined.
